(** * nike_monitor.py: a shallow embedding and its verified properties

    The program is one class, [NikeMonitor], of ten methods.  It polls a
    listing page, filters the product cards by name, fetches a detail page
    per match, decides from a persisted snapshot whether to notify, formats a
    message and sends it over three channels.

    The embedding follows the source method by method.  Everything the
    program does to the outside (HTTP, SMTP, the clock, the state file) is
    explicit: a [World] is passed through every method, and the answers of
    the outside are oracles collected in an [Env].  Python exceptions are
    values of [exn]; a method is a function [World -> result A * World].

    Logging calls are left out: they change nothing the properties below talk
    about, and the handlers of the [logging] module do not raise. *)

From stdpp Require Import gmap strings list fin_maps sorting.
From Stdlib Require Import ZArith Ascii Lia.
From Stdlib Require String.

Local Open Scope Z_scope.

(** ** Python values *)

(** The subclasses of [Exception] the program can meet.  Asynchronous
    interrupts are not [Exception]s and are not part of the model.  The
    program has two kinds of handler: [except Exception], which catches
    every class below, and the handler of line 309, which names two of
    them; so the classes are kept apart and their hierarchy plays no part. *)
Inductive exn : Type :=
  | KeyError (key : string)     (* d[key] on a dict without the key *)
  | ValueError                  (* urljoin on a malformed URL, sleep(-1) *)
  | FileNotFoundError           (* open(path, 'r') on a missing file *)
  | JSONDecodeError             (* json.load on a text that is not JSON *)
  | UnicodeDecodeError          (* reading a file whose bytes are not text *)
  | RecursionError              (* json.load on a document nested too deep *)
  | OSError                     (* any other I/O error: PermissionError, ... *)
  | RequestException            (* requests: Timeout, ConnectionError, ... *)
  | SMTPException               (* smtplib *)
  | UnicodeEncodeError          (* MIMEText on a text that cannot be encoded *)
  | MessageError                (* email.errors: HeaderParseError, ... *)
  | OverflowError               (* sleep on a length beyond the C time type *)
  | ParserError                 (* raised while building the parse tree *)
  | OtherError (name : string). (* any other subclass, by its name *)

#[global] Instance exn_eq_dec : EqDecision exn.
Proof. solve_decision. Defined.

Inductive result (A : Type) : Type :=
  | Ok (a : A)
  | Raise (e : exn).
Arguments Ok {A} a.
Arguments Raise {A} e.

(** Truth value of a [str]: the empty string is false. *)
Definition truthy (s : string) : bool :=
  match s with
  | EmptyString => false
  | String _ _ => true
  end.

(** Truth value of [d.get(k)] for a string valued key: [None] and the empty
    string are false. *)
Definition truthy_opt (o : option string) : bool :=
  match o with
  | None => false
  | Some s => truthy s
  end.

(** [a or b] on strings. *)
Definition str_or (a b : string) : string :=
  if truthy a then a else b.

(** [t in s]: [t] occurs in [s] as a contiguous run of characters. *)
Fixpoint str_in (t s : string) : bool :=
  if String.prefix t s then true
  else match s with
       | EmptyString => false
       | String _ s' => str_in t s'
       end.

(** The mathematical reading of [t in s]. *)
Definition is_substring (t s : string) : Prop :=
  ∃ pre post : string, s = pre +:+ t +:+ post.

(** [s.split(c)] for a separator of one character; the result is never the
    empty list. *)
Fixpoint split_char (c : ascii) (s : string) : list string :=
  match s with
  | EmptyString => [EmptyString]
  | String a s' =>
      if Ascii.eqb a c then EmptyString :: split_char c s'
      else match split_char c s' with
           | [] => [String a EmptyString]
           | seg :: segs => String a seg :: segs
           end
  end.

(** [l[-1]] on a list that is known to be non-empty. *)
Definition last_item (l : list string) : string := List.last l EmptyString.

(** [sep.join(l)]. *)
Definition join (sep : string) (l : list string) : string := String.concat sep l.

(** [s.replace(old, new)] for a non-empty [old]: the occurrences are
    replaced from left to right and do not overlap.  [skip] counts the
    characters of an occurrence that is being dropped. *)
Fixpoint replace_from (old new : string) (skip : nat) (s : string) : string :=
  match s with
  | EmptyString => EmptyString
  | String a s' =>
      match skip with
      | S k => replace_from old new k s'
      | O =>
          if String.prefix old s
          then new +:+ replace_from old new (Nat.pred (String.length old)) s'
          else String a (replace_from old new O s')
      end
  end.

Definition replace (old new s : string) : string := replace_from old new O s.

(** [sorted(l)] on a list of strings: ascending in the order of [str], which
    compares character by character. *)
Definition sorted (l : list string) : list string :=
  merge_sort String.le l.

(** The longest pause [time.sleep] converts: CPython counts the length in
    nanoseconds in a signed integer of 64 bits and raises [OverflowError] on
    a length that does not fit, which is one of more than 9223372036
    seconds.  A platform may refuse lengths shortly below that bound as
    well; the statements on the loop only use that a pause of at most 300
    seconds is accepted. *)
Definition sleep_max : Z := 9223372036.


(** ** The data model *)

(** A product dictionary, as [check_nike_availability] builds it. *)
Record Product : Type := mkProduct {
  p_name : string;
  p_price : string;
  p_link : string;
  p_sizes : list string;
  p_in_stock : bool
}.

(** The dictionary [get_product_details] returns: every key may be absent. *)
Record Details : Type := mkDetails {
  d_price : option string;
  d_sizes : option (list string);
  d_in_stock : option bool
}.

(** The empty dictionary. *)
Definition no_details : Details := mkDetails None None None.

(** One value of the persisted mapping. *)
Record Snapshot : Type := mkSnapshot {
  snap_name : string;
  snap_price : string;
  snap_sizes : list string;
  snap_in_stock : bool
}.

#[global] Instance Snapshot_eq_dec : EqDecision Snapshot.
Proof. solve_decision. Defined.

(** The configuration dictionary.  A key that is missing from the file is
    [None]; [bot_token] and [chat_id] are [None] too when the environment
    variable they default to is unset. *)
Record TelegramConfig : Type := mkTelegram {
  tg_enabled : option bool;
  tg_bot_token : option string;
  tg_chat_id : option string
}.

Record EmailConfig : Type := mkEmail {
  em_enabled : option bool;
  em_sender_email : option string;
  em_recipient_email : option string;
  em_smtp_server : option string;
  em_smtp_port : option Z;
  em_sender_password : option string
}.

Record DiscordConfig : Type := mkDiscord {
  dc_enabled : option bool;
  dc_webhook_url : option string
}.

Record Config : Type := mkConfig {
  search_terms : option (list string);
  nike_search_url : option string;
  user_agent : option string;
  check_interval : option Z;
  single_run : option bool;
  telegram : option TelegramConfig;
  email_notifications : option EmailConfig;
  discord_webhook : option DiscordConfig
}.

(** ** What the parser shows of a page

    The parse tree is the parser's; the program only sees the answers to its
    queries.  A page is modelled by these answers, one field per query of
    the source. *)

(** A [button] element: [btn.get('disabled')], which is the value of the
    attribute ([None] without the attribute, the empty string for
    [disabled=""]), and [btn.get_text(strip=True)]. *)
Record Button : Type := mkButton {
  btn_disabled : option string;
  btn_text : string
}.

(** A candidate block of the listing page. *)
Record Card : Type := mkCard {
  (* card.name *)
  card_name : string;
  (* card.get('href'), asked when the card itself is a link *)
  card_href : option string;
  (* card.find(['h3','h4','span'], class_=re.compile(
       r'product-card__title|card-title')): its get_text(strip=True) *)
  card_title : option string;
  (* card.find(text=re.compile(r'Air Force|AF1')): the text node *)
  card_text_node : option string;
  (* card.find('a'): the href attribute of the first link inside, if any *)
  card_find_a : option (option string);
  (* card.find(class_=re.compile(r'price|product-price')):
     its get_text(strip=True) *)
  card_price : option string
}.

Record Soup : Type := mkSoup {
  (* soup.find_all('div', class_=re.compile(r'product-card')) *)
  soup_product_cards : list Card;
  (* soup.find_all('a', href=re.compile(r'/t/')) *)
  soup_t_links : list Card;
  (* soup.find(class_=re.compile(r'product-price|current-price')):
     its get_text(strip=True) *)
  soup_price : option string;
  (* soup.find_all('button', class_=re.compile(r'size|btn-size')) *)
  soup_size_buttons : list Button;
  (* soup.find('button', text=re.compile(r'Add to Bag|Add to Cart', re.I)) *)
  soup_add_to_bag : option Button
}.

Record Response : Type := mkResponse {
  status_code : Z;
  content : string
}.

(** ** The outside world *)

(** The JSON bodies the program posts. *)
Inductive Payload : Type :=
  | TelegramPayload (chat_id text parse_mode : string)
                    (disable_web_page_preview : bool)
  | DiscordPayload (content : string).

(** The mail of lines 230-235: a [MIMEMultipart] with three headers and one
    part of plain text. *)
Record Message : Type := mkMessage {
  msg_from : string;            (* msg['From'] *)
  msg_to : string;              (* msg['To'] *)
  msg_subject : string;         (* msg['Subject'] *)
  msg_text : string             (* the text given to MIMEText *)
}.

(** The calls on an SMTP session. *)
Inductive SmtpCall : Type :=
  | SMTP (server : string) (port : Z)
  | Starttls
  | Login (user password : string)
  | Sendmail (sender recipient text : string)
  | Quit.

(** What the program asks of the outside, in the order it asks. *)
Inductive Event : Type :=
  | EvGet (url ua : string)
  | EvPost (url : string) (body : Payload)
  | EvSmtp (call : SmtpCall)
  | EvNow
  | EvSleep (seconds : Z).

#[global] Instance Payload_eq_dec : EqDecision Payload.
Proof. solve_decision. Defined.

#[global] Instance SmtpCall_eq_dec : EqDecision SmtpCall.
Proof. solve_decision. Defined.

#[global] Instance Event_eq_dec : EqDecision Event.
Proof. solve_decision. Defined.

(** What [open] and [json.load] find in [last_notification.json].  The
    program only compares the loaded value with a mapping of snapshots, so a
    document is identified with the mapping it is equal to; [Foreign] stands
    for the documents that are equal to no such mapping.  [LoadFails] is a
    file that opens and on which [json.load] raises: [UnicodeDecodeError]
    when the bytes are not text in the encoding of the locale,
    [RecursionError] when the document is nested too deep, the error of the
    device when the read fails; [BadJson] is the case of a text that is
    not JSON, on which it raises [JSONDecodeError]. *)
Inductive StateFile : Type :=
  | NoFile                                   (* the file does not exist *)
  | Unreadable                               (* open fails otherwise *)
  | LoadFails (e : exn)                      (* json.load raises e *)
  | BadJson                                  (* the text is not JSON *)
  | Foreign                                  (* JSON of another shape *)
  | Stored (m : gmap string Snapshot).

(** How the next write of the state file ends. *)
Inductive WriteMode : Type :=
  | WriteOk          (* the file is replaced *)
  | OpenFails        (* open(path, 'w') raises, the file is untouched *)
  | DumpFails.       (* the file is truncated, then json.dump raises *)

Record World : Type := mkWorld {
  state_file : StateFile;
  write_mode : WriteMode;
  write_count : nat;            (* how often the file was opened for writing *)
  trace : list Event            (* oldest first *)
}.

(** The answers of the outside and the library functions whose text is not
    part of the program.  An oracle sees the trace so far, so two equal
    requests may be answered differently. *)
Record Env : Type := mkEnv {
  (* str.lower and str.strip *)
  lower : string → string;
  strip : string → string;
  (* urllib.parse.urljoin *)
  urljoin : string → string → result string;
  (* re.search(r'[\$£€¥][\d,]+(?:\.\d{2})?', s), then group(0) *)
  search_price : string → option string;
  (* BeautifulSoup(content, 'html.parser') *)
  BeautifulSoup : string → result Soup;
  (* requests.get(url, headers={'User-Agent': ua}, timeout=15) *)
  requests_get : list Event → string → string → result Response;
  (* requests.post(url, json=payload, timeout=10): the status code *)
  requests_post : list Event → string → Payload → result Z;
  (* a call on an smtplib.SMTP session *)
  smtp_call : list Event → SmtpCall → result unit;
  (* MIMEText(text, 'plain'), which encodes the text *)
  MIMEText : string → result unit;
  (* msg.as_string(), which writes the headers and the part, with a
     boundary drawn at random *)
  as_string : list Event → Message → result string;
  (* datetime.now().strftime('%Y-%m-%d %H:%M:%S UTC') *)
  now_strftime : list Event → string
}.

(** ** Methods as state and exception passing functions *)

Definition M (A : Type) : Type := World → result A * World.

Definition ret {A} (a : A) : M A := λ w, (Ok a, w).

Definition raise {A} (e : exn) : M A := λ w, (Raise e, w).

Definition bind {A B} (m : M A) (k : A → M B) : M B :=
  λ w, match m w with
       | (Ok a, w') => k a w'
       | (Raise e, w') => (Raise e, w')
       end.

Notation "'let!' x ':=' m 'in' k" := (bind m (λ x, k))
  (at level 10, x pattern, m at level 100, k at level 200,
   format "'[v' 'let!'  x  ':='  m  'in' '/' k ']'").

(** [try: body / except Exception: handler]. *)
Definition try_except {A} (body : M A) (handler : exn → M A) : M A :=
  λ w, match body w with
       | (Ok a, w') => (Ok a, w')
       | (Raise e, w') => handler e w'
       end.

(** [try: body / except (E1, E2): handler]: other exceptions pass. *)
Definition try_except_only {A} (caught : exn → bool)
    (body : M A) (handler : exn → M A) : M A :=
  λ w, match body w with
       | (Ok a, w') => (Ok a, w')
       | (Raise e, w') => if caught e then handler e w' else (Raise e, w')
       end.

(** [d[key]]. *)
Definition subscript {A} (key : string) (o : option A) : M A :=
  match o with
  | Some a => ret a
  | None => raise (KeyError key)
  end.

(** A pure computation that may raise. *)
Definition lift {A} (r : result A) : M A := λ w, (r, w).

(** A computation inside the program whose result is not determined by its
    arguments: it leaves no trace, and is answered from the trace so far. *)
Definition peek {A} (answer : list Event → result A) : M A :=
  λ w, (answer (trace w), w).

(** An exchange with the outside: the request is appended to the trace and
    the oracle answers from the trace before it. *)
Definition log_event (ev : Event) (w : World) : World :=
  mkWorld (state_file w) (write_mode w) (write_count w) (trace w ++ [ev]).

Definition ask {A} (ev : Event) (answer : list Event → result A) : M A :=
  λ w, (answer (trace w), log_event ev w).

(** The line feed of the message templates. *)
Definition nl : string := String (ascii_of_nat 10) EmptyString.

(** ** The methods of [NikeMonitor] *)

Section NikeMonitor.

Variable E : Env.
Variable config : Config.          (* self.config *)

(** *** [matches_search_terms], lines 172-185 *)

(** The loop over the terms: the first term that is not in the name ends
    it with [False]. *)
Fixpoint all_terms_present (product_lower : string) (terms : list string)
    : bool :=
  match terms with
  | [] => true
  | term :: rest =>
      if negb (str_in (lower E term) product_lower) then false
      else all_terms_present product_lower rest
  end.

(** A name that was never set is [None]. *)
Definition matches_search_terms (product_name : option string) : bool :=
  match product_name with
  | None => false
  | Some name =>
      if negb (truthy name) then false
      else
        let product_lower := lower E name in
        let terms := default [] (search_terms config) in
        all_terms_present product_lower terms
  end.

(** *** [get_product_details], lines 131-170 *)

(** The loop over the size buttons. *)
Fixpoint collect_sizes (size_buttons : list Button) (sizes : list string)
    : list string :=
  match size_buttons with
  | [] => sizes
  | btn :: rest =>
      if negb (truthy_opt (btn_disabled btn)) && truthy (btn_text btn)
      then collect_sizes rest (sizes ++ [btn_text btn])
      else collect_sizes rest sizes
  end.

Definition requests_get_page (url ua : string) : M Response :=
  ask (EvGet url ua) (λ tr, requests_get E tr url ua).

Definition get_product_details (product_url : string) : M Details :=
  try_except
    (let! ua := subscript "user_agent" (user_agent config) in
     let! response := requests_get_page product_url ua in
     if negb (status_code response =? 200) then ret no_details
     else
       let! soup := lift (BeautifulSoup E (content response)) in
       let price :=
         match soup_price soup with
         | Some price_text => search_price E price_text
         | None => None
         end in
       let sizes := collect_sizes (soup_size_buttons soup) [] in
       let in_stock := (0 <? length sizes)%nat in
       let in_stock :=
         match soup_add_to_bag soup with
         | Some add_to_bag =>
             if negb (truthy_opt (btn_disabled add_to_bag)) then true
             else in_stock
         | None => in_stock
         end in
       ret (mkDetails price (Some sizes) (Some in_stock)))
    (λ _, ret no_details).

(** *** [check_nike_availability], lines 58-129 *)

(** Lines 84-91. *)
Definition card_product_name (card : Card) : string :=
  match card_title card with
  | None =>
      match card_text_node card with
      | Some name_elem => if truthy name_elem then strip E name_elem else ""
      | None => ""
      end
  | Some title => title
  end.

(** Lines 93-97. *)
Definition card_product_link (card : Card) : M string :=
  let link_elem :=
    if String.eqb (card_name card) "a" then Some (card_href card)
    else card_find_a card in
  match link_elem with
  | Some href => lift (urljoin E "https://www.nike.com" (default "" href))
  | None => ret ""
  end.

(** Lines 99-102. *)
Definition card_product_price (card : Card) : string :=
  default "" (card_price card).

(** Lines 109-115. *)
Definition product_info (product_name product_price product_link : string)
    (detailed_info : Details) : Product :=
  mkProduct product_name
    (str_or product_price (default "N/A" (d_price detailed_info)))
    product_link
    (default [] (d_sizes detailed_info))
    (default false (d_in_stock detailed_info)).

(** Line 117. *)
Definition retained (p : Product) : bool :=
  p_in_stock p || negb (bool_decide (p_sizes p = [])).

(** The body of the [try] of lines 78-119; [products] is the list so far
    and the result is the list after the card. *)
Definition process_card (card : Card) (products : list Product)
    : M (list Product) :=
  let product_name := card_product_name card in
  let! product_link := card_product_link card in
  let product_price := card_product_price card in
  if matches_search_terms (Some product_name) then
    let! detailed_info := get_product_details product_link in
    let info :=
      product_info product_name product_price product_link detailed_info in
    if retained info then ret (products ++ [info]) else ret products
  else ret products.

(** The loop of lines 77-123: a card that raises is skipped. *)
Fixpoint process_cards (product_cards : list Card) (products : list Product)
    : M (list Product) :=
  match product_cards with
  | [] => ret products
  | card :: rest =>
      let! products :=
        try_except (process_card card products) (λ _, ret products) in
      process_cards rest products
  end.

Definition check_nike_availability : M (list Product) :=
  try_except
    (let! ua := subscript "user_agent" (user_agent config) in
     let! url := subscript "nike_search_url" (nike_search_url config) in
     let! response := requests_get_page url ua in
     if negb (status_code response =? 200) then ret []
     else
       let! soup := lift (BeautifulSoup E (content response)) in
       let product_cards := soup_product_cards soup in
       let product_cards :=
         if bool_decide (product_cards = []) then soup_t_links soup
         else product_cards in
       process_cards product_cards [])
    (λ _, ret []).

(** *** [format_notification], lines 277-298

    In the source file the docstring, [if not products:] and its [return]
    stand one indentation step to the left of the statements that follow
    them, in this method and in [should_notify].  The embedding takes the
    guard as the first statement of the method body and the statements at
    method-body depth as the rest of that body: the form under which the
    lines after the guard are reachable, and the one the messages and the
    comments of the source describe. *)

(** [datetime.now().strftime('%Y-%m-%d %H:%M:%S UTC')]. *)
Definition strftime_now : M string :=
  ask EvNow (λ tr, Ok (now_strftime E tr)).

(** The loop of lines 284-296 on [message_lines]. *)
Fixpoint append_products (products : list Product)
    (message_lines : list string) : M (list string) :=
  match products with
  | [] => ret message_lines
  | product :: rest =>
      let message_lines :=
        message_lines ++ ["**Product:** " +:+ p_name product] in
      let message_lines :=
        message_lines ++ ["**Price:** " +:+ p_price product] in
      let message_lines :=
        if negb (bool_decide (p_sizes product = [])) then
          let sizes_str := join ", " (p_sizes product) in
          message_lines ++ ["**Available Sizes:** " +:+ sizes_str]
        else message_lines ++ ["**Sizes:** Check website"] in
      let! now := strftime_now in
      let message_lines := message_lines ++ ["**Time:** " +:+ now] in
      let message_lines :=
        message_lines ++ ["🛒 **BUY NOW:** " +:+ p_link product] in
      let message_lines := message_lines ++ [""] in
      append_products rest message_lines
  end.

Definition format_notification (products : list Product) : M string :=
  if bool_decide (products = []) then
    let! now := strftime_now in
    ret ("🔍 **Nike Monitor Status**" +:+ nl +:+ nl
         +:+ "**Status:** No AF1 City Pack Paris found" +:+ nl
         +:+ "**Time:** " +:+ now +:+ nl
         +:+ "**Next check:** 5 minutes")
  else
    let message_lines :=
      ["🚨 **NIKE ALERT — AF1 City Pack Paris (Patent)**" +:+ nl] in
    let! message_lines := append_products products message_lines in
    ret (join nl message_lines).

(** *** [should_notify], lines 300-334 *)

(** What [json.load] returns. *)
Inductive Loaded : Type :=
  | LoadedState (m : gmap string Snapshot)
  | LoadedForeign.

(** [with open('last_notification.json', 'r') as f: json.load(f)]: [open]
    raises on a file that is missing or cannot be opened, [json.load] reads
    the file as text and raises when it cannot. *)
Definition load_last_state : M Loaded :=
  λ w, match state_file w with
       | NoFile => (Raise FileNotFoundError, w)
       | Unreadable => (Raise OSError, w)
       | LoadFails e => (Raise e, w)
       | BadJson => (Raise JSONDecodeError, w)
       | Foreign => (Ok LoadedForeign, w)
       | Stored m => (Ok (LoadedState m), w)
       end.

(** [with open('last_notification.json', 'w') as f: json.dump(state, f)]. *)
Definition dump_state (state : gmap string Snapshot) : M unit :=
  λ w, match write_mode w with
       | WriteOk =>
           (Ok (), mkWorld (Stored state) (write_mode w)
                     (S (write_count w)) (trace w))
       | OpenFails =>
           (Raise OSError, mkWorld (state_file w) (write_mode w)
                             (S (write_count w)) (trace w))
       | DumpFails =>
           (Raise OSError, mkWorld BadJson (write_mode w)
                             (S (write_count w)) (trace w))
       end.

(** Line 315. *)
Definition product_id (product : Product) : string :=
  if truthy (p_link product) then last_item (split_char "/" (p_link product))
  else p_name product.

(** Lines 316-321. *)
Definition snapshot (product : Product) : Snapshot :=
  mkSnapshot (p_name product) (p_price product) (sorted (p_sizes product))
    (p_in_stock product).

(** The loop of lines 314-321 on [current_state]. *)
Fixpoint build_state (products : list Product)
    (current_state : gmap string Snapshot) : gmap string Snapshot :=
  match products with
  | [] => current_state
  | product :: rest =>
      build_state rest (<[product_id product := snapshot product]> current_state)
  end.

(** [current_state != last_state]. *)
Definition state_differs (current_state : gmap string Snapshot)
    (last_state : Loaded) : bool :=
  match last_state with
  | LoadedState m => negb (bool_decide (current_state = m))
  | LoadedForeign => true
  end.

Definition is_missing_or_corrupt (e : exn) : bool :=
  match e with
  | FileNotFoundError | JSONDecodeError => true
  | _ => false
  end.

Definition should_notify (products : list Product) : M bool :=
  if bool_decide (products = []) then ret true
  else
    let! last_state :=
      try_except_only is_missing_or_corrupt load_last_state
        (λ _, ret (LoadedState ∅)) in
    let current_state := build_state products ∅ in
    if state_differs current_state last_state then
      let! _ := try_except (dump_state current_state) (λ _, ret ()) in
      ret true
    else ret false.

(** *** The three channels, lines 187-275 *)

Definition requests_post_json (url : string) (payload : Payload) : M Z :=
  ask (EvPost url payload) (λ tr, requests_post E tr url payload).

Definition send_telegram_message (message : string) : M bool :=
  try_except
    (let telegram_config :=
       default (mkTelegram None None None) (telegram config) in
     if negb (default false (tg_enabled telegram_config)) then ret false
     else
       let bot_token := tg_bot_token telegram_config in
       let chat_id := tg_chat_id telegram_config in
       if negb (truthy_opt bot_token) || negb (truthy_opt chat_id)
       then ret false
       else
         let url := "https://api.telegram.org/bot" +:+ default "" bot_token
                    +:+ "/sendMessage" in
         let payload :=
           TelegramPayload (default "" chat_id) message "Markdown" false in
         let! status := requests_post_json url payload in
         if status =? 200 then ret true else ret false)
    (λ _, ret false).

Definition smtp (call : SmtpCall) : M unit :=
  ask (EvSmtp call) (λ tr, smtp_call E tr call).

Definition send_email_notification (subject message : string) : M bool :=
  try_except
    (let email_config :=
       default (mkEmail None None None None None None)
         (email_notifications config) in
     if negb (default false (em_enabled email_config)) then ret false
     else
       let! sender := subscript "sender_email" (em_sender_email email_config) in
       let! recipient :=
         subscript "recipient_email" (em_recipient_email email_config) in
       let! _ := lift (MIMEText E message) in
       let msg := mkMessage sender recipient subject message in
       let! smtp_server := subscript "smtp_server" (em_smtp_server email_config) in
       let! smtp_port := subscript "smtp_port" (em_smtp_port email_config) in
       let! _ := smtp (SMTP smtp_server smtp_port) in
       let! _ := smtp Starttls in
       let! password :=
         subscript "sender_password" (em_sender_password email_config) in
       let! _ := smtp (Login sender password) in
       let! text := peek (λ tr, as_string E tr msg) in
       let! _ := smtp (Sendmail sender recipient text) in
       let! _ := smtp Quit in
       ret true)
    (λ _, ret false).

Definition send_discord_message (message : string) : M bool :=
  try_except
    (let discord_config :=
       default (mkDiscord None None) (discord_webhook config) in
     if negb (default false (dc_enabled discord_config)) then ret false
     else
       let webhook_url := dc_webhook_url discord_config in
       if negb (truthy_opt webhook_url) then ret false
       else
         let payload := DiscordPayload message in
         let! status := requests_post_json (default "" webhook_url) payload in
         if (status =? 200) || (status =? 204) then ret true else ret false)
    (λ _, ret false).

(** *** [run], lines 336-381 *)

(** Lines 355-362: the three sends, one after the other. *)
Definition dispatch (notification_message : string) : M unit :=
  let! _ := send_telegram_message notification_message in
  let! _ :=
    send_email_notification "Nike AF1 City Pack Paris Available!"
      (replace "🛒" "" (replace "🚨" "" (replace "**" "" notification_message))) in
  let! _ := send_discord_message notification_message in
  ret ().

(** Lines 348-365. *)
Definition notify (products : list Product) : M unit :=
  let! changed := should_notify products in
  if changed then
    let! notification_message := format_notification products in
    if truthy notification_message then dispatch notification_message
    else ret ()
  else ret ().

(** [time.sleep(seconds)]: a negative length and a length that does not
    fit the C time type are refused before any pause is made. *)
Definition time_sleep (seconds : Z) : M unit :=
  if seconds <? 0 then raise ValueError
  else if sleep_max <? seconds then raise OverflowError
  else ask (EvSleep seconds) (λ _, Ok ()).

Inductive LoopControl : Type := Break | Again.

(** One turn of the [while True] of lines 343-381. *)
Definition run_iteration : M LoopControl :=
  let once := default false (single_run config) in
  let interval := default 30 (check_interval config) in
  try_except
    (let! products := check_nike_availability in
     let! _ := notify products in
     if once then ret Break
     else
       let! _ := time_sleep interval in
       ret Again)
    (λ _, if once then ret Break
          else
            let! _ := time_sleep (Z.min interval 300) in
            ret Again).

(** The loop, cut after [turns] turns. *)
Fixpoint run (turns : nat) : M unit :=
  match turns with
  | O => ret ()
  | S turns =>
      let! control := run_iteration in
      match control with
      | Break => ret ()
      | Again => run turns
      end
  end.

End NikeMonitor.

(** ** A concrete outside, to run the methods *)

Module Sim.

(** [str.lower] on the letters A to Z. *)
Definition lower_ascii (c : ascii) : ascii :=
  let n := nat_of_ascii c in
  if ((65 <=? n) && (n <=? 90))%nat then ascii_of_nat (n + 32) else c.

Fixpoint str_lower (s : string) : string :=
  match s with
  | EmptyString => EmptyString
  | String c s' => String (lower_ascii c) (str_lower s')
  end.

Definition is_space (c : ascii) : bool :=
  let n := nat_of_ascii c in
  ((n =? 32) || ((9 <=? n) && (n <=? 13)))%nat.

Fixpoint lstrip (s : string) : string :=
  match s with
  | EmptyString => EmptyString
  | String c s' => if is_space c then lstrip s' else s
  end.

Fixpoint rstrip (s : string) : string :=
  match s with
  | EmptyString => EmptyString
  | String c s' =>
      match rstrip s' with
      | EmptyString => if is_space c then EmptyString else String c EmptyString
      | t => String c t
      end
  end.

Definition str_strip (s : string) : string := rstrip (lstrip s).

(** [urljoin] for the two shapes of link the listing page carries: a path
    from the root of the site, or nothing. *)
Definition url_join (base url : string) : result string :=
  if String.prefix "/" url then Ok (base +:+ url)
  else if truthy url then Ok url
  else Ok base.

(** [as_string] on the headers and the text; a header that holds a line
    feed is refused. *)
Definition write_message (msg : Message) : result string :=
  if str_in nl (msg_from msg) || str_in nl (msg_to msg)
     || str_in nl (msg_subject msg)
  then Raise MessageError
  else Ok ("From: " +:+ msg_from msg +:+ nl +:+ "To: " +:+ msg_to msg +:+ nl
           +:+ "Subject: " +:+ msg_subject msg +:+ nl +:+ nl +:+ msg_text msg).

Definition count_now (tr : list Event) : nat :=
  length (filter (λ ev, ev = EvNow) tr).

(** An outside that serves pages by URL, answers every post with one
    status, lets the SMTP calls of [smtp] through or not, and shows the
    clock reading [clock n] to the [n]-th question. *)
Definition env (pages : string → result Response)
    (parse : string → result Soup) (post : string → result Z)
    (smtp : SmtpCall → result unit) (clock : nat → string) : Env :=
  {| lower := str_lower;
     strip := str_strip;
     urljoin := url_join;
     search_price := λ s, if String.prefix "$" s then Some s else None;
     BeautifulSoup := parse;
     requests_get := λ _ url _, pages url;
     requests_post := λ _ url _, post url;
     smtp_call := λ _ call, smtp call;
     MIMEText := λ _, Ok ();
     as_string := λ _, write_message;
     now_strftime := λ tr, clock (count_now tr) |}.

(** An outside without network. *)
Definition offline : Env :=
  env (λ _, Raise RequestException) (λ _, Raise ParserError)
    (λ _, Raise RequestException) (λ _, Raise SMTPException)
    (λ _, "2024-01-01 00:00:00 UTC").

(** The built-in configuration of [load_config], lines 33-44. *)
Definition default_config (bot_token chat_id : option string) : Config :=
  {| search_terms :=
       Some ["Nike Air Force 1 Low"; "City Pack Paris"; "Patent"];
     nike_search_url := Some "https://www.nike.com/w/air-force-1-aq0113";
     user_agent :=
       Some "Mozilla/5.0 (X11; Linux x86_64) AppleWebKit/537.36 (KHTML, like Gecko) Chrome/120.0.0.0 Safari/537.36";
     check_interval := Some 30;
     single_run := Some false;
     telegram := Some (mkTelegram (Some true) bot_token chat_id);
     email_notifications := None;
     discord_webhook := None |}.

(** The same with other search terms. *)
Definition config_with_terms (terms : list string) : Config :=
  {| search_terms := Some terms;
     nike_search_url := Some "https://www.nike.com/w/air-force-1-aq0113";
     user_agent := Some "Mozilla/5.0";
     check_interval := Some 30;
     single_run := Some false;
     telegram := None;
     email_notifications := None;
     discord_webhook := None |}.

(** A world that starts without a state file. *)
Definition fresh : World := mkWorld NoFile WriteOk 0 [].

End Sim.

(** ** The found message, block by block

    The message of [format_notification] as the specification describes it:
    a header and one block per product, the blocks separated by an empty
    line.  The theorem on [format_notification] compares the method, which
    joins a flat list of lines, with this description. *)

(** The size list joined with commas, or the placeholder. *)
Definition sizes_line (p : Product) : string :=
  if bool_decide (p_sizes p = []) then "**Sizes:** Check website"
  else "**Available Sizes:** " +:+ join ", " (p_sizes p).

(** Name, price, sizes, time stamp and purchase link, a line each. *)
Definition product_block (p : Product) (now : string) : string :=
  "**Product:** " +:+ p_name p +:+ nl
  +:+ "**Price:** " +:+ p_price p +:+ nl
  +:+ sizes_line p +:+ nl
  +:+ "**Time:** " +:+ now +:+ nl
  +:+ "🛒 **BUY NOW:** " +:+ p_link p +:+ nl.

(** The six lines the loop of the method appends for one product. *)
Definition block_lines (p : Product) (now : string) : list string :=
  ["**Product:** " +:+ p_name p; "**Price:** " +:+ p_price p; sizes_line p;
   "**Time:** " +:+ now; "🛒 **BUY NOW:** " +:+ p_link p; ""].

Definition found_header : string :=
  "🚨 **NIKE ALERT — AF1 City Pack Paris (Patent)**" +:+ nl.

Definition found_message (blocks : list string) : string :=
  found_header +:+ nl +:+ join nl blocks.

(** The clock readings of [n] questions in a row, the first asked after the
    trace [tr]. *)
Fixpoint clock_readings (E : Env) (n : nat) (tr : list Event) : list string :=
  match n with
  | O => []
  | S k => now_strftime E tr :: clock_readings E k (tr ++ [EvNow])
  end.

(** ** Sample data *)

Module Cases.

(** A product as the availability check assembles it. *)
Definition paris : Product :=
  mkProduct "Nike Air Force 1 Low City Pack Paris (Patent)" "$150"
    "https://www.nike.com/t/air-force-1-low-paris-FZ1234"
    ["9"; "10"] true.

(** A world whose state file cannot be opened for writing. *)
Definition read_only : World := mkWorld NoFile OpenFails 0 [].

(** A world whose state file holds the snapshot of [paris]. *)
Definition notified : World :=
  mkWorld (Stored (build_state [paris] ∅)) WriteOk 1 [].

(** A listing page with one card, whose link leads to a detail page. *)
Definition listing_url : string := "https://www.nike.com/w/air-force-1-aq0113".
Definition detail_url : string :=
  "https://www.nike.com/t/air-force-1-low-paris-FZ1234".

Definition card : Card :=
  {| card_name := "div";
     card_href := None;
     card_title := Some "Nike Air Force 1 Low City Pack Paris (Patent)";
     card_text_node := None;
     card_find_a := Some (Some "/t/air-force-1-low-paris-FZ1234");
     card_price := Some "$150" |}.

Definition listing : Soup :=
  {| soup_product_cards := [card];
     soup_t_links := [];
     soup_price := None;
     soup_size_buttons := [];
     soup_add_to_bag := None |}.

(** A detail page with two sizes to buy and one that is sold out. *)
Definition detail : Soup :=
  {| soup_product_cards := [];
     soup_t_links := [];
     soup_price := Some "$150";
     soup_size_buttons :=
       [mkButton None "9"; mkButton None "10";
        mkButton (Some "disabled") "11"];
     soup_add_to_bag := Some (mkButton None "Add to Bag") |}.

(** A detail page without size buttons whose purchase button is written
    [<button disabled="">Add to Bag</button>]. *)
Definition sold_out : Soup :=
  {| soup_product_cards := [];
     soup_t_links := [];
     soup_price := None;
     soup_size_buttons := [];
     soup_add_to_bag := Some (mkButton (Some "") "Add to Bag") |}.

(** The body of a page stands for itself: the parser maps it to the
    answers above. *)
Definition parse (detail_page : Soup) (body : string) : result Soup :=
  if String.eqb body "listing" then Ok listing
  else if String.eqb body "detail" then Ok detail_page
  else Raise ParserError.

Definition clock (n : nat) : string :=
  if Nat.even n then "2024-01-01 12:00:00 UTC" else "2024-01-01 12:00:01 UTC".

(** The shop answers both pages; posts get [post_status]; SMTP works. *)
Definition shop (detail_page : Soup) (post_status : Z) : Env :=
  Sim.env
    (λ url, if String.eqb url listing_url then Ok (mkResponse 200 "listing")
            else if String.eqb url detail_url then Ok (mkResponse 200 "detail")
            else Ok (mkResponse 404 ""))
    (parse detail_page) (λ _, Ok post_status) (λ _, Ok ()) clock.

(** The listing page answers, the detail page times out. *)
Definition detail_timeout : Env :=
  Sim.env
    (λ url, if String.eqb url listing_url then Ok (mkResponse 200 "listing")
            else Raise RequestException)
    (parse detail) (λ _, Ok 200) (λ _, Ok ()) clock.

(** The listing page answers with status 503. *)
Definition unavailable : Env :=
  Sim.env (λ _, Ok (mkResponse 503 "")) (parse detail) (λ _, Ok 200)
    (λ _, Ok ()) clock.

Definition config : Config := Sim.default_config None None.

(** Scenario D: the chat bot is switched off, the webhook and the mail
    relay are switched on. *)
Definition scenario_d : Config :=
  {| search_terms := Some ["Air Force 1"];
     nike_search_url := Some listing_url;
     user_agent := Some "Mozilla/5.0";
     check_interval := Some 30;
     single_run := Some true;
     telegram := Some (mkTelegram (Some false) (Some "token") (Some "42"));
     email_notifications :=
       Some (mkEmail (Some true) (Some "bot@example.org")
               (Some "me@example.org") (Some "smtp.example.org") (Some 587)
               (Some "secret"));
     discord_webhook :=
       Some (mkDiscord (Some true) (Some "https://discord.example/hook")) |}.

(** All three channels switched on. *)
Definition all_channels : Config :=
  {| search_terms := Some ["Air Force 1"];
     nike_search_url := Some listing_url;
     user_agent := Some "Mozilla/5.0";
     check_interval := Some 30;
     single_run := Some true;
     telegram := Some (mkTelegram (Some true) (Some "token") (Some "42"));
     email_notifications :=
       Some (mkEmail (Some true) (Some "bot@example.org")
               (Some "me@example.org") (Some "smtp.example.org") (Some 587)
               (Some "secret"));
     discord_webhook :=
       Some (mkDiscord (Some true) (Some "https://discord.example/hook")) |}.

(** The mail of the two configurations above as the relay receives it. *)
Definition mail_text (subject body : string) : string :=
  "From: bot@example.org" +:+ nl +:+ "To: me@example.org" +:+ nl
  +:+ "Subject: " +:+ subject +:+ nl +:+ nl +:+ body.

(** Every post raises, the mail relay works. *)
Definition posts_raise : Env :=
  Sim.env (λ _, Raise RequestException) (parse detail)
    (λ _, Raise RequestException) (λ _, Ok ()) clock.

(** The same without the password of the mail account. *)
Definition no_password : Config :=
  {| search_terms := Some ["Air Force 1"];
     nike_search_url := Some listing_url;
     user_agent := Some "Mozilla/5.0";
     check_interval := Some 30;
     single_run := Some true;
     telegram := None;
     email_notifications :=
       Some (mkEmail (Some true) (Some "bot@example.org")
               (Some "me@example.org") (Some "smtp.example.org") (Some 587)
               None);
     discord_webhook := None |}.

End Cases.

(** ** [load_config], lines 26-44 *)

(** What [open(config_file, 'r')] and [json.load] find. *)
Inductive ConfigFile : Type :=
  | ConfigAbsent                   (* the file does not exist *)
  | ConfigUnreadable               (* open fails otherwise *)
  | ConfigLoadFails (e : exn)      (* json.load raises e *)
  | ConfigNotJson                  (* the text is not JSON *)
  | ConfigJson (loaded : Config).  (* the dictionary of the file *)

(** [with open(config_file, 'r') as f: return json.load(f)]. *)
Definition read_config_file (file : ConfigFile) : result Config :=
  match file with
  | ConfigAbsent => Raise FileNotFoundError
  | ConfigUnreadable => Raise OSError
  | ConfigLoadFails e => Raise e
  | ConfigNotJson => Raise JSONDecodeError
  | ConfigJson loaded => Ok loaded
  end.

(** [getenv] is [os.getenv]. *)
Definition load_config (file : ConfigFile) (getenv : string → option string)
    : result Config :=
  match read_config_file file with
  | Ok loaded => Ok loaded
  | Raise FileNotFoundError =>
      Ok {| search_terms :=
              Some ["Nike Air Force 1 Low"; "City Pack Paris"; "Patent"];
            nike_search_url :=
              Some "https://www.nike.com/w/air-force-1-aq0113";
            user_agent :=
              Some "Mozilla/5.0 (X11; Linux x86_64) AppleWebKit/537.36 (KHTML, like Gecko) Chrome/120.0.0.0 Safari/537.36";
            check_interval := Some 30;
            single_run := Some false;
            telegram :=
              Some (mkTelegram (Some true) (getenv "TELEGRAM_BOT_TOKEN")
                      (getenv "TELEGRAM_CHAT_ID"));
            email_notifications := None;
            discord_webhook := None |}
  | Raise e => Raise e
  end.

(** ** What a method does to the world

    Descriptions used by the statements on the effects of the methods. *)

(** The error of reading the state file that the handler of line 309 lets
    pass, if the read raises one. *)
Definition read_error (w : World) : option exn :=
  match (load_last_state w).1 with
  | Ok _ => None
  | Raise e => if is_missing_or_corrupt e then None else Some e
  end.

(** The trace of [w'] is the trace of [w] followed by exchanges that all
    satisfy [P]. *)
Definition appended (P : Event → Prop) (w w' : World) : Prop :=
  ∃ evs, trace w' = trace w ++ evs ∧ Forall P evs.

(** The state file and what is known of its writes are the same in [w] and
    [w']. *)
Definition file_kept (w w' : World) : Prop :=
  state_file w' = state_file w
  ∧ write_mode w' = write_mode w
  ∧ write_count w' = write_count w.

(** The same of a method, from every world. *)
Definition appends {A} (P : Event → Prop) (m : M A) : Prop :=
  ∀ w, appended P w (m w).2.

Definition keeps_file {A} (m : M A) : Prop :=
  ∀ w, file_kept w (m w).2.

(** The kinds of exchange. *)
Definition is_get_with (ua : option string) (ev : Event) : Prop :=
  ∃ url a, ev = EvGet url a ∧ ua = Some a.

Definition is_send (ev : Event) : Prop :=
  (∃ url body, ev = EvPost url body) ∨ (∃ call, ev = EvSmtp call).

Definition is_now (ev : Event) : Prop := ev = EvNow.

Definition not_sleep (ev : Event) : Prop := ∀ seconds, ev ≠ EvSleep seconds.

(** The pauses of a trace, in order. *)
Fixpoint sleeps (tr : list Event) : list Z :=
  match tr with
  | [] => []
  | EvSleep seconds :: rest => seconds :: sleeps rest
  | _ :: rest => sleeps rest
  end.

(** The message for the empty list, lines 279-280. *)
Definition absence_message (now : string) : string :=
  "🔍 **Nike Monitor Status**" +:+ nl +:+ nl
  +:+ "**Status:** No AF1 City Pack Paris found" +:+ nl
  +:+ "**Time:** " +:+ now +:+ nl
  +:+ "**Next check:** 5 minutes".

(** The body of the mail: the message without the marks of the chat. *)
Definition plain_text (message : string) : string :=
  replace "🛒" "" (replace "🚨" "" (replace "**" "" message)).

(** The five calls of a mail session, in the order of lines 237-243. *)
Definition smtp_session (server : string) (port : Z)
    (sender password recipient text : string) : list SmtpCall :=
  [SMTP server port; Starttls; Login sender password;
   Sendmail sender recipient text; Quit].

(** The calls of a mail session by what became of writing the mail out:
    when [as_string] raises, the session ends with the login. *)
Definition mail_session (server : string) (port : Z)
    (sender password recipient : string) (written : result string)
    : list SmtpCall :=
  match written with
  | Ok text => smtp_session server port sender password recipient text
  | Raise _ => [SMTP server port; Starttls; Login sender password]
  end.

(** Two products that differ at most in the order of their sizes. *)
Definition same_up_to_size_order (p q : Product) : Prop :=
  p_name p = p_name q ∧ p_price p = p_price q ∧ p_link p = p_link q
  ∧ p_in_stock p = p_in_stock q ∧ p_sizes p ≡ₚ p_sizes q.

(** ** More sample data *)

Module Samples.

(** The product of [Cases.paris] with its sizes in the other order. *)
Definition paris_reordered : Product :=
  mkProduct "Nike Air Force 1 Low City Pack Paris (Patent)" "$150"
    "https://www.nike.com/t/air-force-1-low-paris-FZ1234"
    ["10"; "9"] true.

(** Another product, with an identifier of its own. *)
Definition dunk : Product :=
  mkProduct "Nike Dunk Low" "$110" "https://www.nike.com/t/dunk-low-DD1391"
    [] true.

(** A card that does not carry the search terms. *)
Definition other_card : Card :=
  {| card_name := "div";
     card_href := None;
     card_title := Some "Nike Dunk Low";
     card_text_node := None;
     card_find_a := Some (Some "/t/dunk-low-DD1391");
     card_price := Some "$110" |}.

(** A world whose state file cannot be read. *)
Definition locked : World := mkWorld Unreadable WriteOk 0 [].

(** The built-in configuration without the two environment variables. *)
Definition no_environment (name : string) : option string := None.

(** The built-in configuration with them. *)
Definition environment (name : string) : option string :=
  if String.eqb name "TELEGRAM_BOT_TOKEN" then Some "token"
  else if String.eqb name "TELEGRAM_CHAT_ID" then Some "42"
  else None.

(** The configuration of [Cases.all_channels] run without end, with a pause
    of [interval] seconds. *)
Definition continuous (interval : Z) : Config :=
  {| search_terms := Some ["Air Force 1"];
     nike_search_url := Some Cases.listing_url;
     user_agent := Some "Mozilla/5.0";
     check_interval := Some interval;
     single_run := Some false;
     telegram := Some (mkTelegram (Some true) (Some "token") (Some "42"));
     email_notifications :=
       Some (mkEmail (Some true) (Some "bot@example.org")
               (Some "me@example.org") (Some "smtp.example.org") (Some 587)
               (Some "secret"));
     discord_webhook :=
       Some (mkDiscord (Some true) (Some "https://discord.example/hook")) |}.

(** The mail channel with a sender that holds a line feed. *)
Definition folded_sender : Config :=
  {| search_terms := Some ["Air Force 1"];
     nike_search_url := Some Cases.listing_url;
     user_agent := Some "Mozilla/5.0";
     check_interval := Some 30;
     single_run := Some true;
     telegram := None;
     email_notifications :=
       Some (mkEmail (Some true)
               (Some ("bot@example.org" +:+ nl +:+ "Bcc: all@example.org"))
               (Some "me@example.org") (Some "smtp.example.org") (Some 587)
               (Some "secret"));
     discord_webhook := None |}.

End Samples.

(** ** Facts on the Python values *)

Section Strings.

Lemma prefix_append (t post : string) : String.prefix t (t +:+ post) = true.
Proof.
  induction t as [|a t IH]; simpl.
  - by destruct post.
  - destruct (ascii_dec a a); [exact IH | done].
Qed.

Lemma prefix_split (t s : string) :
  String.prefix t s = true → ∃ post, s = t +:+ post.
Proof.
  revert s. induction t as [|a t IH]; intros s H.
  - by exists s.
  - destruct s as [|b s]; simpl in H; [done|].
    destruct (ascii_dec a b) as [->|]; [|done].
    destruct (IH s H) as [post ->]. by exists post.
Qed.

Lemma str_in_unfold (t s : string) :
  str_in t s =
  if String.prefix t s then true
  else match s with
       | EmptyString => false
       | String _ s' => str_in t s'
       end.
Proof. by destruct s. Qed.

(** [t in s] decides that [t] is a substring of [s]. *)
Lemma str_in_spec (t s : string) : str_in t s = true ↔ is_substring t s.
Proof.
  split.
  - induction s as [|a s IH]; rewrite str_in_unfold;
      destruct (String.prefix t _) eqn:Hp; intros H; try done.
    + apply prefix_split in Hp as [post ->]. by exists EmptyString, post.
    + apply prefix_split in Hp as [post ->]. by exists EmptyString, post.
    + destruct (IH H) as (pre & post & ->). by exists (String a pre), post.
  - intros (pre & post & ->). induction pre as [|a pre IH].
    + rewrite str_in_unfold.
      change (EmptyString +:+ t +:+ post) with (t +:+ post).
      by rewrite prefix_append.
    + rewrite str_in_unfold. simpl String.append.
      destruct (String.prefix t _); [done | exact IH].
Qed.

Lemma append_assoc (a b c : string) : (a +:+ b) +:+ c = a +:+ b +:+ c.
Proof.
  induction a as [|x a IH]; [done|].
  change (String x ((a +:+ b) +:+ c) = String x (a +:+ b +:+ c)).
  by rewrite IH.
Qed.

Lemma join_cons (sep x : string) (l : list string) :
  l ≠ [] → join sep (x :: l) = x +:+ sep +:+ join sep l.
Proof. by destruct l. Qed.

End Strings.

(** ** The match filter *)

Section MatchFilter.

Variable E : Env.
Variable config : Config.

Lemma all_terms_present_spec (product_lower : string) (terms : list string) :
  all_terms_present E product_lower terms = true ↔
  Forall (λ term, is_substring (lower E term) product_lower) terms.
Proof.
  induction terms as [|term rest IH]; simpl.
  - split; [constructor | done].
  - destruct (str_in (lower E term) product_lower) eqn:Hin; simpl.
    + rewrite IH. apply str_in_spec in Hin.
      split; [by constructor | by inversion 1].
    + split; [done|]. inversion 1 as [|? ? Hsub _]; subst.
      apply str_in_spec in Hsub. congruence.
Qed.

End MatchFilter.

(** ** The state and exception passing primitives *)

Section Monad.

Context {A B : Type}.

(** A [try] whose handler returns a value never raises. *)
Lemma try_except_returns (body : M A) (d : A) (w : World) :
  ∃ a w', try_except body (λ _, ret d) w = (Ok a, w').
Proof.
  unfold try_except. destruct (body w) as [[a|e] w']; eauto.
Qed.

End Monad.

(** ** The change detector *)

Section ChangeDetector.

(** Adding products never removes a key. *)
Lemma build_state_keeps (products : list Product)
    (state : gmap string Snapshot) (k : string) :
  is_Some (state !! k) → is_Some (build_state products state !! k).
Proof.
  revert state. induction products as [|p rest IH]; intros state H; [done|].
  simpl. apply IH. destruct (decide (product_id p = k)) as [->|Hne].
  - rewrite lookup_insert_eq. eauto.
  - by rewrite lookup_insert_ne.
Qed.

(** The mapping of a non-empty list is not empty. *)
Lemma build_state_nonempty (products : list Product) :
  products ≠ [] → build_state products ∅ ≠ ∅.
Proof.
  destruct products as [|p rest]; [done|]. intros _ Hempty.
  assert (is_Some (build_state (p :: rest) ∅ !! product_id p)) as [s Hs].
  { simpl. apply build_state_keeps. rewrite lookup_insert_eq. eauto. }
  rewrite Hempty in Hs. by rewrite lookup_empty in Hs.
Qed.

Lemma find_append {T : Type} (f : T → bool) (l1 l2 : list T) :
  List.find f (l1 ++ l2) =
  match List.find f l1 with
  | Some x => Some x
  | None => List.find f l2
  end.
Proof.
  induction l1 as [|x l1 IH]; [done|]. simpl. by destruct (f x).
Qed.

(** The value under a key is the snapshot of the last product with that
    identifier. *)
Lemma build_state_lookup (products : list Product)
    (state : gmap string Snapshot) (k : string) :
  build_state products state !! k =
  match List.find (λ p, bool_decide (product_id p = k)) (reverse products) with
  | Some p => Some (snapshot p)
  | None => state !! k
  end.
Proof.
  revert state. induction products as [|p rest IH]; intros state; [done|].
  simpl. rewrite IH, reverse_cons, find_append.
  destruct (List.find _ (reverse rest)); [done|]. simpl.
  case_bool_decide as Hk.
  - subst k. by rewrite lookup_insert_eq.
  - by rewrite lookup_insert_ne.
Qed.

(** The method on a non-empty list, by the content of the state file.  A
    file that cannot be read for another reason than being absent or not
    being JSON is not handled: the error leaves the method. *)
Lemma should_notify_nonempty (products : list Product) (w : World) :
  products ≠ [] →
  let current_state := build_state products ∅ in
  should_notify products w =
  match state_file w with
  | Unreadable => (Raise OSError, w)
  | LoadFails e =>
      if is_missing_or_corrupt e
      then (Ok true, (dump_state current_state w).2)
      else (Raise e, w)
  | Stored m =>
      if bool_decide (current_state = m) then (Ok false, w)
      else (Ok true, (dump_state current_state w).2)
  | NoFile | BadJson | Foreign => (Ok true, (dump_state current_state w).2)
  end.
Proof.
  intros Hne current_state.
  pose proof (build_state_nonempty products Hne) as Hcur.
  unfold should_notify. rewrite bool_decide_eq_false_2 by done.
  fold current_state.
  unfold bind, try_except_only, load_last_state, try_except, ret.
  destruct (state_file w) as [| |e0| | |m];
    cbn [is_missing_or_corrupt state_differs]; try done.
  - rewrite bool_decide_eq_false_2 by done. cbn [negb].
    by destruct (dump_state current_state w) as [[[]|e] w'].
  - destruct (is_missing_or_corrupt e0); cbn [state_differs]; [|done].
    rewrite bool_decide_eq_false_2 by done. cbn [negb].
    by destruct (dump_state current_state w) as [[[]|e] w'].
  - rewrite bool_decide_eq_false_2 by done. cbn [negb].
    by destruct (dump_state current_state w) as [[[]|e] w'].
  - by destruct (dump_state current_state w) as [[[]|e] w'].
  - destruct (bool_decide (current_state = m)); cbn [negb]; [done|].
    by destruct (dump_state current_state w) as [[[]|e] w'].
Qed.

(** The world after a write of the state file. *)
Lemma dump_state_world (state : gmap string Snapshot) (w : World) :
  let w' := (dump_state state w).2 in
  write_count w' = S (write_count w)
  ∧ trace w' = trace w
  ∧ write_mode w' = write_mode w
  ∧ state_file w' = match write_mode w with
                    | WriteOk => Stored state
                    | OpenFails => state_file w
                    | DumpFails => BadJson
                    end.
Proof. unfold dump_state. by destruct (write_mode w). Qed.

End ChangeDetector.

(** ** Identifiers and snapshots *)

Section Identifiers.

(** [sorted] sorts: the result is ascending and has the elements of the
    list. *)
Lemma sorted_spec (l : list string) :
  Sorted String.le (sorted l) ∧ sorted l ≡ₚ l.
Proof.
  split; [apply (Sorted_merge_sort _) | apply merge_sort_Permutation].
Qed.

(** The snapshot does not see the order in which the page lists the
    sizes. *)
Lemma sorted_permutation (l1 l2 : list string) :
  l1 ≡ₚ l2 → sorted l1 = sorted l2.
Proof.
  intros Hperm. apply (Sorted_unique String.le); try apply sorted_spec.
  destruct (sorted_spec l1) as [_ ->], (sorted_spec l2) as [_ ->]. done.
Qed.

Lemma split_char_nonempty (c : ascii) (s : string) : split_char c s ≠ [].
Proof.
  induction s as [|a s IH]; [done|]. simpl.
  destruct (Ascii.eqb a c); [done|]. by destruct (split_char c s).
Qed.

(** Joining the segments with the separator gives the string back. *)
Lemma join_split_char (c : ascii) (s : string) :
  join (String c EmptyString) (split_char c s) = s.
Proof.
  induction s as [|a s IH]; [done|]. simpl.
  pose proof (split_char_nonempty c s) as Hne.
  destruct (Ascii.eqb_spec a c) as [->|Hac].
  - rewrite join_cons by done. by rewrite IH.
  - destruct (split_char c s) as [|seg segs]; [done|].
    destruct segs as [|seg' segs].
    + cbn in IH |- *. by rewrite IH.
    + rewrite join_cons in IH |- * by done. by rewrite <- IH.
Qed.

(** No segment holds the separator. *)
Lemma split_char_segments (c : ascii) (s : string) :
  Forall (λ seg, str_in (String c EmptyString) seg = false) (split_char c s).
Proof.
  induction s as [|a s IH]; [by repeat constructor|]. simpl.
  destruct (Ascii.eqb_spec a c) as [->|Hac]; [by constructor|].
  destruct (split_char c s) as [|seg segs].
  - constructor; [|constructor]. rewrite str_in_unfold. cbn [String.prefix].
    by destruct (ascii_dec c a) as [->|_].
  - inversion IH as [|? ? Hseg Hsegs]; subst. constructor; [|done].
    rewrite str_in_unfold. cbn [String.prefix].
    destruct (ascii_dec c a) as [->|_]; [done|]. exact Hseg.
Qed.

Lemma join_snoc (sep x : string) (l : list string) :
  l ≠ [] → join sep (l ++ [x]) = join sep l +:+ sep +:+ x.
Proof.
  induction l as [|y l IH]; [done|]. intros _.
  destruct l as [|z l]; [done|].
  change ((y :: z :: l) ++ [x]) with (y :: ((z :: l) ++ [x])).
  rewrite join_cons by done. rewrite IH by done.
  rewrite (join_cons sep y) by done. by rewrite !append_assoc.
Qed.

(** [s.split('/')[-1]] is what follows the last slash of [s], or [s] itself
    when it has none. *)
Lemma last_segment_spec (s : string) :
  let seg := last_item (split_char "/" s) in
  str_in "/" seg = false
  ∧ (s = seg ∨ ∃ pre, s = pre +:+ "/" +:+ seg).
Proof.
  intros seg. subst seg. unfold last_item.
  pose proof (split_char_nonempty "/" s) as Hne.
  pose proof (split_char_segments "/" s) as Hsegs.
  pose proof (join_split_char "/" s) as Hjoin.
  destruct (split_char "/" s) as [|x l] using rev_ind; [done|]. clear IHl.
  rewrite last_last. rewrite Forall_app, Forall_singleton in Hsegs.
  destruct Hsegs as [_ Hx]. split; [done|].
  destruct l as [|y l]; [left; by rewrite <- Hjoin|]. right.
  rewrite join_snoc in Hjoin by done. by eexists.
Qed.

(** The identifier of a product: the last segment of its link, or its name
    when it has no link. *)
Lemma product_id_spec (p : Product) :
  (p_link p = EmptyString → product_id p = p_name p)
  ∧ (p_link p ≠ EmptyString →
     str_in "/" (product_id p) = false
     ∧ (p_link p = product_id p
        ∨ ∃ pre, p_link p = pre +:+ "/" +:+ product_id p)).
Proof.
  unfold product_id. destruct (p_link p) as [|c rest] eqn:Hlink.
  - by split.
  - split; [done|]. intros _. apply last_segment_spec.
Qed.

End Identifiers.

(** C6.  For the empty product list [should_notify] returns true whatever
    the state file holds: the world it returns is the world it was given, so
    the file is neither read for the answer nor written. *)
Theorem should_notify_empty (w : World) :
  should_notify [] w = (Ok true, w).
Proof. reflexivity. Qed.

(** C7.  For a non-empty product list whose current mapping is the one the
    state file holds, [should_notify] returns false and the world is
    untouched: the file has the content it had and no write was attempted. *)
Theorem should_notify_unchanged (products : list Product) (w : World) :
  products ≠ [] →
  state_file w = Stored (build_state products ∅) →
  should_notify products w = (Ok false, w)
  ∧ state_file (should_notify products w).2 = state_file w
  ∧ write_count (should_notify products w).2 = write_count w.
Proof.
  intros Hne Hfile.
  assert (should_notify products w = (Ok false, w)) as Heq.
  { rewrite should_notify_nonempty by done. rewrite Hfile.
    by rewrite bool_decide_eq_true_2. }
  by rewrite Heq.
Qed.

Lemma should_notify_unchanged_witness :
  [Cases.paris] ≠ []
  ∧ state_file Cases.notified = Stored (build_state [Cases.paris] ∅)
  ∧ should_notify [Cases.paris] Cases.notified = (Ok false, Cases.notified).
Proof.
  split; [done|]. split; [reflexivity|].
  apply (should_notify_unchanged [Cases.paris] Cases.notified);
    [done | reflexivity].
Defined.

(** C1 as stated fails when the state file cannot be written: the list is
    not empty and its mapping differs from the prior state, the method
    returns true, and the file does not hold the new mapping. *)
Lemma should_notify_read_only_counterexample :
  [Cases.paris] ≠ []
  ∧ state_file Cases.read_only ≠ Stored (build_state [Cases.paris] ∅)
  ∧ ¬ (∃ w', should_notify [Cases.paris] Cases.read_only = (Ok true, w')
             ∧ state_file w' = Stored (build_state [Cases.paris] ∅)).
Proof.
  split; [done|]. split; [done|]. intros (w' & Hrun & Hfile).
  assert (should_notify [Cases.paris] Cases.read_only
          = (Ok true, mkWorld NoFile OpenFails 1 [])) as Heq
    by (vm_compute; reflexivity).
  rewrite Heq in Hrun. injection Hrun as <-. discriminate Hfile.
Qed.

(** C1 (amended).  For a non-empty product list whose current mapping
    differs from the prior state as loaded (a missing file and a file whose
    text is not JSON count as the empty mapping), [should_notify] makes one
    attempt to overwrite the state file with the whole new mapping and
    returns true.  When the write succeeds the file holds exactly the new
    mapping, and a second call with the same list returns false and writes
    nothing; an error of the write is swallowed and true is returned all the
    same.  When reading the state file raises another error than the two of
    line 309 (the file cannot be opened, its bytes are not text), nothing
    is loaded: that error leaves the method, which has written nothing. *)
Theorem should_notify_changed (products : list Product) (w : World) :
  products ≠ [] →
  state_file w ≠ Stored (build_state products ∅) →
  (read_error w = None →
   ∃ w', should_notify products w = (Ok true, w')
         ∧ write_count w' = S (write_count w)
         ∧ trace w' = trace w
         ∧ (write_mode w = WriteOk →
            state_file w' = Stored (build_state products ∅)
            ∧ should_notify products w' = (Ok false, w'))
         ∧ (write_mode w = OpenFails → state_file w' = state_file w))
  ∧ (∀ e, read_error w = Some e →
          is_missing_or_corrupt e = false
          ∧ should_notify products w = (Raise e, w)).
Proof.
  intros Hne Hdiff. split.
  - intros Hread.
    destruct (dump_state_world (build_state products ∅) w)
      as (Hcount & Htrace & Hmode & Hfile).
    exists (dump_state (build_state products ∅) w).2.
    split; [|split; [done|split; [done|split]]].
    + rewrite should_notify_nonempty by done.
      unfold read_error, load_last_state in Hread.
      destruct (state_file w) as [| |e| | |m]; try done.
      * cbn in Hread. by destruct (is_missing_or_corrupt e).
      * rewrite bool_decide_eq_false_2; [done | congruence].
    + intros Hok. rewrite Hok in Hfile. split; [done|].
      rewrite should_notify_nonempty by done. rewrite Hfile.
      by rewrite bool_decide_eq_true_2.
    + intros Hfail. by rewrite Hfail in Hfile.
  - intros e Hread. rewrite should_notify_nonempty by done.
    unfold read_error, load_last_state in Hread.
    destruct (state_file w) as [| |e0| | |m]; cbn in Hread; try done.
    + by injection Hread as <-.
    + destruct (is_missing_or_corrupt e0) eqn:He0; [done|].
      by injection Hread as <-.
Qed.

Lemma should_notify_changed_witness :
  [Cases.paris] ≠ []
  ∧ state_file Sim.fresh ≠ Stored (build_state [Cases.paris] ∅)
  ∧ read_error Sim.fresh = None
  ∧ ∃ w', should_notify [Cases.paris] Sim.fresh = (Ok true, w')
          ∧ state_file w' = Stored (build_state [Cases.paris] ∅).
Proof.
  split; [done|]. split; [done|]. split; [reflexivity|].
  destruct (should_notify_changed [Cases.paris] Sim.fresh) as [Hyes _];
    [done | done |].
  destruct Hyes as (w' & Heq & _ & _ & Hok & _); [reflexivity|].
  exists w'. split; [exact Heq | by apply Hok].
Defined.

(** A state file whose bytes are not text: the read raises, nothing is
    written and nothing is sent. *)
Example should_notify_undecodable :
  read_error (mkWorld (LoadFails UnicodeDecodeError) WriteOk 0 [])
  = Some UnicodeDecodeError
  ∧ should_notify [Cases.paris]
      (mkWorld (LoadFails UnicodeDecodeError) WriteOk 0 [])
    = (Raise UnicodeDecodeError,
       mkWorld (LoadFails UnicodeDecodeError) WriteOk 0 []).
Proof. split; reflexivity. Qed.

(** C3.  The filter answers true exactly for a name that is present, not
    empty, and contains every configured term as a substring once the name
    and the term are case-folded, which the method does with [str.lower].
    So a missing or empty name never matches, and with no terms every
    non-empty name matches. *)
Theorem matches_search_terms_spec (E : Env) (config : Config) :
  let terms := default [] (search_terms config) in
  (∀ product_name,
     matches_search_terms E config product_name = true ↔
     ∃ name, product_name = Some name ∧ name ≠ EmptyString
             ∧ Forall (λ term, is_substring (lower E term) (lower E name)) terms)
  ∧ matches_search_terms E config None = false
  ∧ matches_search_terms E config (Some EmptyString) = false
  ∧ (terms = [] →
     ∀ name, name ≠ EmptyString →
             matches_search_terms E config (Some name) = true).
Proof.
  intros terms.
  assert (∀ product_name,
     matches_search_terms E config product_name = true ↔
     ∃ name, product_name = Some name ∧ name ≠ EmptyString
             ∧ Forall (λ term, is_substring (lower E term) (lower E name)) terms)
    as Hiff.
  { intros [name|]; simpl.
    - destruct name as [|c rest]; simpl.
      + split; [done|]. by intros (name & [= <-] & Hne & _).
      + fold terms. rewrite all_terms_present_spec. split.
        * intros H. by exists (String c rest).
        * by intros (name & [= <-] & _ & H).
    - split; [done|]. by intros (name & [=] & _). }
  split; [exact Hiff|]. split; [done|]. split; [done|].
  intros Hnil name Hne. apply Hiff. exists name.
  split; [done|]. split; [done|]. rewrite Hnil. constructor.
Qed.

Lemma matches_search_terms_spec_witness :
  default [] (search_terms (Sim.config_with_terms [])) = []
  ∧ "Air Force 1" ≠ EmptyString
  ∧ matches_search_terms Sim.offline (Sim.config_with_terms [])
      (Some "Air Force 1") = true.
Proof.
  split; [reflexivity|]. split; [discriminate|].
  apply (matches_search_terms_spec Sim.offline (Sim.config_with_terms []));
    [reflexivity | discriminate].
Defined.

(** Scenario B, the filter: a name that carries the three built-in terms in
    another case matches, a name that lacks one does not. *)
Example matches_default_terms :
  matches_search_terms Sim.offline (Sim.default_config None None)
    (Some "NIKE AIR FORCE 1 LOW 'City Pack Paris' (patent)") = true
  ∧ matches_search_terms Sim.offline (Sim.default_config None None)
      (Some "Nike Air Force 1 Low City Pack Paris") = false.
Proof. split; reflexivity. Qed.

(** ** The formatter *)

Section Formatter.

Variable E : Env.

Lemma append_products_step (p : Product) (rest : list Product)
    (message_lines : list string) (w : World) :
  append_products E (p :: rest) message_lines w =
  append_products E rest
    (message_lines ++ block_lines p (now_strftime E (trace w)))
    (log_event EvNow w).
Proof.
  unfold block_lines, sizes_line. cbn [append_products].
  unfold bind, strftime_now, ask.
  destruct (bool_decide (p_sizes p = [])); cbn [negb];
    by rewrite <- !(assoc_L (++)).
Qed.

Lemma append_products_lines (products : list Product)
    (message_lines : list string) (w : World) :
  append_products E products message_lines w =
  (Ok (message_lines ++
       concat (zip_with block_lines products
                 (clock_readings E (length products) (trace w)))),
   Nat.iter (length products) (log_event EvNow) w).
Proof.
  revert message_lines w.
  induction products as [|p rest IH]; intros message_lines w.
  - cbn. by rewrite app_nil_r.
  - rewrite append_products_step, IH. cbn [length clock_readings zip_with concat].
    rewrite <- (assoc_L (++)). f_equal.
    symmetry. apply Nat.iter_succ_r.
Qed.

(** Joining the lines of the blocks gives the blocks, an empty line
    between two of them. *)
Lemma join_block_lines (items : list (Product * string)) :
  join nl (concat (uncurry block_lines <$> items)) =
  join nl (uncurry product_block <$> items).
Proof.
  induction items as [|[p now] rest IH]; [done|].
  cbn [fmap list_fmap concat uncurry]. unfold block_lines at 1.
  destruct rest as [|it rest].
  - cbn [fmap list_fmap concat app]. unfold join, product_block.
    cbn [String.concat]. by rewrite !append_assoc.
  - assert (concat (uncurry block_lines <$> it :: rest) ≠ []) as Hne
      by (by destruct it).
    rewrite (join_cons nl (product_block p now)) by done.
    rewrite <- IH. cbn [app]. rewrite !join_cons by done.
    unfold product_block. by rewrite !append_assoc.
Qed.

Lemma clock_readings_length (n : nat) (tr : list Event) :
  length (clock_readings E n tr) = n.
Proof.
  revert tr. induction n as [|n IH]; intros tr; [done|].
  cbn. by rewrite IH.
Qed.

Lemma blocks_of_products (products : list Product) (stamps : list string) :
  length stamps = length products →
  Forall2 (λ p block, ∃ now, block = product_block p now) products
    (zip_with product_block products stamps).
Proof.
  revert stamps. induction products as [|p rest IH]; intros stamps Hlen.
  - constructor.
  - destruct stamps as [|now stamps]; [done|]. cbn [zip_with].
    constructor; [by exists now|]. apply IH. by injection Hlen.
Qed.

End Formatter.

(** C2.  For a non-empty product list the formatter returns one message:
    the alert header, an empty line, and one block per product in the order
    of the list, two blocks separated by an empty line.  The block of a
    product holds its name, its price, its sizes joined with a comma and a
    space (or the line that sends the reader to the website when it has no
    sizes), the clock reading taken for that product, and its link. *)
Theorem format_notification_found (E : Env) (products : list Product)
    (w : World) :
  products ≠ [] →
  let stamps := clock_readings E (length products) (trace w) in
  let blocks := zip_with product_block products stamps in
  format_notification E products w =
    (Ok (found_message blocks), Nat.iter (length products) (log_event EvNow) w)
  ∧ Forall2 (λ p block, ∃ now, block = product_block p now) products blocks.
Proof.
  intros Hne stamps blocks. split.
  - unfold format_notification. rewrite bool_decide_eq_false_2 by done.
    unfold bind. rewrite append_products_lines. unfold ret. f_equal. f_equal.
    fold stamps. unfold found_message, blocks.
    rewrite (zip_with_zip block_lines), (zip_with_zip product_block).
    rewrite <- join_block_lines.
    change ([_] ++ ?l) with (found_header :: l).
    apply join_cons. subst stamps.
    destruct products as [|p rest]; [done|]. cbn. by destruct (zip _ _).
  - apply blocks_of_products, clock_readings_length.
Qed.

Lemma format_notification_found_witness :
  [Cases.paris] ≠ []
  ∧ format_notification Sim.offline [Cases.paris] Sim.fresh =
      (Ok (found_message
             [product_block Cases.paris "2024-01-01 00:00:00 UTC"]),
       log_event EvNow Sim.fresh).
Proof.
  split; [done|].
  apply (format_notification_found Sim.offline [Cases.paris] Sim.fresh). done.
Defined.

(** Scenario B, the message: the two sizes appear joined with a comma. *)
Example found_message_sizes :
  match (format_notification (Cases.shop Cases.detail 200) [Cases.paris]
           Sim.fresh).1 with
  | Ok message => str_in "**Available Sizes:** 9, 10" message = true
  | Raise _ => False
  end.
Proof. vm_compute. reflexivity. Qed.

(** ** The detail extractor *)

Section DetailExtractor.

Variable E : Env.
Variable config : Config.

(** The method has one [try] around its whole body: it always returns. *)
Lemma get_product_details_returns (product_url : string) (w : World) :
  ∃ details w',
    get_product_details E config product_url w = (Ok details, w').
Proof. apply try_except_returns. Qed.

(** The sizes are the texts of the buttons that pass the test of the
    loop, in the order of the page. *)
Lemma collect_sizes_filter (size_buttons : list Button) (sizes : list string) :
  collect_sizes size_buttons sizes =
  sizes ++ (btn_text <$>
            List.filter (λ btn, negb (truthy_opt (btn_disabled btn))
                                && truthy (btn_text btn)) size_buttons).
Proof.
  revert sizes. induction size_buttons as [|btn rest IH]; intros sizes; simpl.
  - by rewrite app_nil_r.
  - destruct (negb (truthy_opt (btn_disabled btn)) && truthy (btn_text btn));
      rewrite IH; [|done]. by rewrite <- (assoc_L (++)).
Qed.

(** A page that was fetched and parsed.  [in_stock] follows the test the
    method applies to the purchase button: the value of its [disabled]
    attribute is false as a truth value. *)
Lemma get_product_details_page (product_url ua : string) (w : World)
    (response : Response) (soup : Soup) :
  user_agent config = Some ua →
  requests_get E (trace w) product_url ua = Ok response →
  status_code response = 200 →
  BeautifulSoup E (content response) = Ok soup →
  ∃ details,
    get_product_details E config product_url w
      = (Ok details, log_event (EvGet product_url ua) w)
    ∧ d_sizes details = Some (collect_sizes (soup_size_buttons soup) [])
    ∧ is_Some (d_in_stock details)
    ∧ (d_in_stock details = Some true ↔
       collect_sizes (soup_size_buttons soup) [] ≠ []
       ∨ ∃ btn, soup_add_to_bag soup = Some btn
                ∧ truthy_opt (btn_disabled btn) = false).
Proof.
  intros Hua Hget Hstatus Hparse.
  unfold get_product_details, try_except, bind, subscript,
    requests_get_page, ask, lift.
  rewrite Hua. cbn [ret]. rewrite Hget, Hstatus. cbn [Z.eqb Pos.eqb negb].
  rewrite Hparse. eexists. split; [reflexivity|]. cbn [d_sizes d_in_stock].
  split; [done|]. split; [eauto|].
  set (sizes := collect_sizes (soup_size_buttons soup) []).
  destruct (soup_add_to_bag soup) as [btn|].
  - destruct (truthy_opt (btn_disabled btn)) eqn:Hd; cbn [negb].
    + split.
      * intros [= H]. left. by destruct sizes.
      * intros [H | (b & [= <-] & Hb)]; [by destruct sizes | congruence].
    + split; [|done]. intros _. right. by exists btn.
  - split.
    + intros [= H]. left. by destruct sizes.
    + intros [H | (b & [=] & _)]. by destruct sizes.
Qed.

(** The two signals one by one: a size button without the attribute and
    with a text gives [in_stock]; no size and no purchase button gives its
    negation. *)
Lemma get_product_details_signals (product_url ua : string) (w : World)
    (response : Response) (soup : Soup) :
  user_agent config = Some ua →
  requests_get E (trace w) product_url ua = Ok response →
  status_code response = 200 →
  BeautifulSoup E (content response) = Ok soup →
  ∃ details,
    get_product_details E config product_url w
      = (Ok details, log_event (EvGet product_url ua) w)
    ∧ ((∃ btn, btn ∈ soup_size_buttons soup ∧ btn_disabled btn = None
               ∧ btn_text btn ≠ EmptyString) →
       d_in_stock details = Some true)
    ∧ (collect_sizes (soup_size_buttons soup) [] = [] →
       soup_add_to_bag soup = None →
       d_in_stock details = Some false).
Proof.
  intros Hua Hget Hstatus Hparse.
  destruct (get_product_details_page _ _ _ _ _ Hua Hget Hstatus Hparse)
    as (details & Hrun & _ & [b Hb] & Hiff).
  exists details. split; [done|]. split.
  - intros (btn & Hin & Hdis & Htext). apply Hiff. left.
    rewrite collect_sizes_filter. cbn [app]. intros Hnil.
    apply fmap_nil_inv in Hnil.
    assert (btn ∈ List.filter
              (λ btn, negb (truthy_opt (btn_disabled btn))
                      && truthy (btn_text btn)) (soup_size_buttons soup))
      as Hmem.
    { apply list_elem_of_In, filter_In. split; [by apply list_elem_of_In|].
      rewrite Hdis. by destruct (btn_text btn). }
    rewrite Hnil in Hmem. by apply elem_of_nil in Hmem.
  - intros Hsizes Hnone. rewrite Hb. destruct b; [|done].
    apply Hiff in Hb as [H | (btn & Hbtn & _)]; [done | congruence].
Qed.

(** Every failure on the way gives the empty dictionary. *)
Lemma get_product_details_failed (product_url ua : string) (w : World) :
  user_agent config = Some ua →
  (∃ e, requests_get E (trace w) product_url ua = Raise e)
  ∨ (∃ response, requests_get E (trace w) product_url ua = Ok response
                 ∧ (status_code response ≠ 200
                    ∨ ∃ e, BeautifulSoup E (content response) = Raise e)) →
  get_product_details E config product_url w
    = (Ok no_details, log_event (EvGet product_url ua) w).
Proof.
  intros Hua Hfail.
  unfold get_product_details, try_except, bind, subscript,
    requests_get_page, ask, lift.
  rewrite Hua. cbn [ret].
  destruct Hfail as [[e ->] | (response & -> & Hresp)]; [done|].
  destruct (status_code response =? 200) eqn:Hs; [|done]. cbn [negb].
  destruct Hresp as [Hne | [e ->]]; [|done].
  apply Z.eqb_eq in Hs. done.
Qed.

End DetailExtractor.

(** C4.  On a page that was fetched and parsed, with no size button and a
    purchase button that carries the attribute [disabled=""], the detail
    record has no size and [in_stock] is true: the method tests the value of
    the attribute, and the empty value is false. *)
Theorem get_product_details_disabled_button :
  soup_size_buttons Cases.sold_out = []
  ∧ (∃ btn, soup_add_to_bag Cases.sold_out = Some btn
            ∧ is_Some (btn_disabled btn))
  ∧ ∃ w', get_product_details (Cases.shop Cases.sold_out 200) Cases.config
            Cases.detail_url Sim.fresh
          = (Ok (mkDetails None (Some []) (Some true)), w').
Proof.
  split; [reflexivity|]. split.
  - eexists. split; [reflexivity | by eexists].
  - eexists. vm_compute. reflexivity.
Qed.

(** ** The availability check *)

Section AvailabilityCheck.

Variable E : Env.
Variable config : Config.

Lemma retained_true (p : Product) :
  retained p = true ↔ p_in_stock p = true ∨ p_sizes p ≠ [].
Proof.
  unfold retained.
  destruct (p_in_stock p), (bool_decide_reflect (p_sizes p = [])); simpl;
    intuition congruence.
Qed.

(** The link of a card is computed without touching the world. *)
Lemma card_product_link_world (card : Card) (w w' : World)
    (r : result string) :
  card_product_link E card w = (r, w') → w' = w.
Proof.
  unfold card_product_link.
  destruct (if String.eqb _ _ then _ else _); [|by intros [= _ <-]].
  by intros [= _ <-].
Qed.

(** What a card does to the list: nothing, or one product at its end. *)
Lemma process_card_result (card : Card) (products : list Product)
    (w w' : World) (r : result (list Product)) :
  process_card E config card products w = (r, w') →
  (∃ e, r = Raise e)
  ∨ r = Ok products
  ∨ ∃ link details,
      card_product_link E card w = (Ok link, w)
      ∧ matches_search_terms E config (Some (card_product_name E card)) = true
      ∧ get_product_details E config link w = (Ok details, w')
      ∧ retained (product_info (card_product_name E card)
                    (card_product_price card) link details) = true
      ∧ r = Ok (products ++
                [product_info (card_product_name E card)
                   (card_product_price card) link details]).
Proof.
  unfold process_card, bind.
  destruct (card_product_link E card w) as [[link|e] w1] eqn:Hlink.
  2: { intros [= <- _]. left. by exists e. }
  pose proof (card_product_link_world _ _ _ _ Hlink) as ->.
  destruct (matches_search_terms E config _) eqn:Hmatch.
  2: { intros [= <- _]. by right; left. }
  destruct (get_product_details_returns E config link w)
    as (details & w2 & Hdetails).
  rewrite Hdetails.
  destruct (retained _) eqn:Hret; intros [= <- <-].
  - right; right. by exists link, details.
  - by right; left.
Qed.

(** The loop over the cards never raises and keeps the list free of
    products without a sign of availability. *)
Lemma process_cards_result (product_cards : list Card)
    (products : list Product) (w w' : World) (r : result (list Product)) :
  process_cards E config product_cards products w = (r, w') →
  Forall (λ p, p_in_stock p = true ∨ p_sizes p ≠ []) products →
  ∃ products',
    r = Ok products'
    ∧ Forall (λ p, p_in_stock p = true ∨ p_sizes p ≠ []) products'.
Proof.
  revert products w.
  induction product_cards as [|card rest IH]; intros products w Hrun Hall.
  - injection Hrun as <- _. by exists products.
  - cbn [process_cards] in Hrun. unfold bind, try_except in Hrun.
    destruct (process_card E config card products w) as [r1 w1] eqn:Hcard.
    apply process_card_result in Hcard
      as [[e ->] | [-> | (link & d & _ & _ & _ & Hret & ->)]];
      cbn [ret] in Hrun.
    + by apply (IH products w1).
    + by apply (IH products w1).
    + apply (IH _ w1 Hrun). apply Forall_app. split; [done|].
      apply Forall_singleton. by apply retained_true.
Qed.

(** The same for the whole method. *)
Lemma check_nike_availability_result (w w' : World)
    (r : result (list Product)) :
  check_nike_availability E config w = (r, w') →
  ∃ products,
    r = Ok products
    ∧ Forall (λ p, p_in_stock p = true ∨ p_sizes p ≠ []) products.
Proof.
  unfold check_nike_availability, try_except, bind, subscript,
    requests_get_page, ask, lift.
  destruct (user_agent config) as [ua|]; cbn [ret raise];
    [|intros [= <- _]; by exists []].
  destruct (nike_search_url config) as [url|]; cbn [ret raise];
    [|intros [= <- _]; by exists []].
  destruct (requests_get E (trace w) url ua) as [response|e];
    [|intros [= <- _]; by exists []].
  destruct (negb (status_code response =? 200));
    [intros [= <- _]; by exists []|].
  destruct (BeautifulSoup E (content response)) as [soup|e];
    [|intros [= <- _]; by exists []].
  match goal with
  | |- context [process_cards E config ?cards [] ?w0] =>
      destruct (process_cards E config cards [] w0) as [r1 w1] eqn:Hcards
  end.
  apply process_cards_result in Hcards as (products & -> & Hall); [|done].
  intros [= <- _]. by exists products.
Qed.

End AvailabilityCheck.

(** C5.  Every product in the list the availability check returns is in
    stock or has a size.  A matching card whose detail record says neither is
    left out of the list; that is the case when the fetch of the detail page
    raises, a timeout for one. *)
Theorem availability_keeps_purchasable (E : Env) (config : Config) :
  (∀ w products w',
     check_nike_availability E config w = (Ok products, w') →
     Forall (λ p, p_in_stock p = true ∨ p_sizes p ≠ []) products)
  ∧ (∀ card products w link details w',
       card_product_link E card w = (Ok link, w) →
       matches_search_terms E config (Some (card_product_name E card)) = true →
       get_product_details E config link w = (Ok details, w') →
       default false (d_in_stock details) = false →
       default [] (d_sizes details) = [] →
       process_card E config card products w = (Ok products, w'))
  ∧ (∀ card products w link ua e,
       user_agent config = Some ua →
       card_product_link E card w = (Ok link, w) →
       matches_search_terms E config (Some (card_product_name E card)) = true →
       requests_get E (trace w) link ua = Raise e →
       process_card E config card products w
         = (Ok products, log_event (EvGet link ua) w)).
Proof.
  assert (∀ card products w link details w',
       card_product_link E card w = (Ok link, w) →
       matches_search_terms E config (Some (card_product_name E card)) = true →
       get_product_details E config link w = (Ok details, w') →
       default false (d_in_stock details) = false →
       default [] (d_sizes details) = [] →
       process_card E config card products w = (Ok products, w')) as Hskip.
  { intros card products w link details w' Hlink Hmatch Hdetails Hstock Hsizes.
    unfold process_card, bind. rewrite Hlink, Hmatch, Hdetails.
    unfold retained, product_info. cbn [p_in_stock p_sizes].
    by rewrite Hstock, Hsizes. }
  split; [|split; [exact Hskip|]].
  - intros w products w' Hrun.
    apply check_nike_availability_result in Hrun as (ps & [= <-] & Hall).
    exact Hall.
  - intros card products w link ua e Hua Hlink Hmatch Hget.
    apply (Hskip _ _ _ link no_details); try done.
    apply get_product_details_failed; [done|]. left. by exists e.
Qed.

Lemma availability_keeps_purchasable_witness :
  check_nike_availability (Cases.shop Cases.detail 200) Cases.config Sim.fresh
    = (Ok [Cases.paris],
       (check_nike_availability (Cases.shop Cases.detail 200) Cases.config
          Sim.fresh).2)
  ∧ Forall (λ p, p_in_stock p = true ∨ p_sizes p ≠ []) [Cases.paris].
Proof.
  split; [vm_compute; reflexivity|].
  destruct (availability_keeps_purchasable (Cases.shop Cases.detail 200)
              Cases.config) as [Hall _].
  apply (Hall Sim.fresh [Cases.paris]
           (check_nike_availability (Cases.shop Cases.detail 200) Cases.config
              Sim.fresh).2).
  vm_compute; reflexivity.
Defined.

(** Scenario E: the detail page times out and the list is empty. *)
Example detail_timeout_omitted :
  (check_nike_availability Cases.detail_timeout Cases.config Sim.fresh).1
  = Ok [].
Proof. vm_compute. reflexivity. Qed.

(** C8.  The availability check always returns a list.  It returns the
    empty list when the request for the listing page raises, when the
    status of the answer is not 200, and when the parser raises on the
    body; so it does when the configuration lacks the user agent or the
    URL. *)
Theorem check_nike_availability_no_data (E : Env) (config : Config)
    (w : World) :
  (∃ products w', check_nike_availability E config w = (Ok products, w'))
  ∧ (∀ ua url,
       user_agent config = Some ua →
       nike_search_url config = Some url →
       (∀ e, requests_get E (trace w) url ua = Raise e →
             check_nike_availability E config w
               = (Ok [], log_event (EvGet url ua) w))
       ∧ (∀ response,
            requests_get E (trace w) url ua = Ok response →
            status_code response ≠ 200 →
            check_nike_availability E config w
              = (Ok [], log_event (EvGet url ua) w))
       ∧ (∀ response e,
            requests_get E (trace w) url ua = Ok response →
            BeautifulSoup E (content response) = Raise e →
            check_nike_availability E config w
              = (Ok [], log_event (EvGet url ua) w)))
  ∧ (user_agent config = None ∨ nike_search_url config = None →
     check_nike_availability E config w = (Ok [], w)).
Proof.
  split; [apply try_except_returns|]. split.
  - intros ua url Hua Hurl.
    unfold check_nike_availability, try_except, bind, subscript,
      requests_get_page, ask, lift.
    rewrite Hua, Hurl. cbn [ret]. repeat split.
    + by intros e ->.
    + intros response -> Hstatus.
      destruct (status_code response =? 200) eqn:Hs; [|done].
      by apply Z.eqb_eq in Hs.
    + intros response e -> Hparse.
      destruct (negb (status_code response =? 200)); [done|].
      by rewrite Hparse.
  - unfold check_nike_availability, try_except, bind, subscript.
    intros [-> | Hurl]; [done|]. rewrite Hurl. by destruct (user_agent config).
Qed.

Lemma check_nike_availability_no_data_witness :
  user_agent Cases.config = Some (default "" (user_agent Cases.config))
  ∧ nike_search_url Cases.config = Some Cases.listing_url
  ∧ requests_get Cases.unavailable (trace Sim.fresh) Cases.listing_url
      (default "" (user_agent Cases.config)) = Ok (mkResponse 503 "")
  ∧ status_code (mkResponse 503 "") ≠ 200
  ∧ check_nike_availability Cases.unavailable Cases.config Sim.fresh
    = (Ok [], log_event (EvGet Cases.listing_url
                           (default "" (user_agent Cases.config))) Sim.fresh).
Proof.
  split; [reflexivity|]. split; [reflexivity|]. split; [reflexivity|].
  split; [done|].
  destruct (check_nike_availability_no_data Cases.unavailable Cases.config
              Sim.fresh) as (_ & Hcases & _).
  destruct (Hcases (default "" (user_agent Cases.config)) Cases.listing_url)
    as (_ & Hstatus & _); [reflexivity | reflexivity |].
  apply (Hstatus (mkResponse 503 "")); [reflexivity | done].
Defined.

(** C10.  The price of the product a matching card yields is the price of
    the card when the card shows one; else the price of the detail record
    when it has one; else N/A. *)
Theorem product_price_precedence (E : Env) (config : Config) (card : Card)
    (products : list Product) (w w' : World) (link : string)
    (details : Details) :
  card_product_link E card w = (Ok link, w) →
  matches_search_terms E config (Some (card_product_name E card)) = true →
  get_product_details E config link w = (Ok details, w') →
  let info := product_info (card_product_name E card)
                (card_product_price card) link details in
  retained info = true →
  process_card E config card products w = (Ok (products ++ [info]), w')
  ∧ (card_product_price card ≠ EmptyString →
     p_price info = card_product_price card)
  ∧ (card_product_price card = EmptyString →
     ∀ price, d_price details = Some price → p_price info = price)
  ∧ (card_product_price card = EmptyString →
     d_price details = None → p_price info = "N/A").
Proof.
  intros Hlink Hmatch Hdetails info Hret. split.
  - unfold process_card, bind. rewrite Hlink, Hmatch, Hdetails.
    fold info. by rewrite Hret.
  - unfold info, product_info, str_or. cbn [p_price].
    destruct (card_product_price card) as [|c rest]; cbn [truthy].
    + split; [done|]. split; [by intros _ price ->| by intros _ ->].
    + split; [done|]. split; intros [=].
Qed.

Lemma product_price_precedence_witness :
  process_card (Cases.shop Cases.detail 200) Cases.config Cases.card []
    Sim.fresh
  = (Ok ([] ++ [Cases.paris]),
     (get_product_details (Cases.shop Cases.detail 200) Cases.config
        Cases.detail_url Sim.fresh).2)
  ∧ p_price Cases.paris = card_product_price Cases.card.
Proof.
  destruct (product_price_precedence (Cases.shop Cases.detail 200)
              Cases.config Cases.card [] Sim.fresh
              (get_product_details (Cases.shop Cases.detail 200) Cases.config
                 Cases.detail_url Sim.fresh).2
              Cases.detail_url
              (mkDetails (Some "$150") (Some ["9"; "10"]) (Some true)))
    as (Hrun & Hcard & _); [reflexivity | reflexivity | vm_compute; reflexivity
                           | reflexivity |].
  split; [exact Hrun | by apply Hcard].
Defined.

(** The price of the detail page is used when the card shows none, and N/A
    when neither shows one. *)
Example product_price_fallbacks :
  p_price (product_info "AF1" "" "" (mkDetails (Some "$99") None None)) = "$99"
  ∧ p_price (product_info "AF1" "" "" no_details) = "N/A"
  ∧ p_price (product_info "AF1" "$150" ""
               (mkDetails (Some "$99") None None)) = "$150".
Proof. repeat split. Qed.

(** ** The notification channels *)

Section Channels.

Variable E : Env.
Variable config : Config.

Lemma send_telegram_message_returns (message : string) (w : World) :
  ∃ sent w', send_telegram_message E config message w = (Ok sent, w').
Proof. apply try_except_returns. Qed.

Lemma send_email_notification_returns (subject message : string)
    (w : World) :
  ∃ sent w',
    send_email_notification E config subject message w = (Ok sent, w').
Proof. apply try_except_returns. Qed.

Lemma send_discord_message_returns (message : string) (w : World) :
  ∃ sent w', send_discord_message E config message w = (Ok sent, w').
Proof. apply try_except_returns. Qed.

(** The chat bot channel is left alone when it is switched off or lacks
    the token or the chat. *)
Lemma send_telegram_message_skipped (message : string) (w : World) :
  let telegram_config :=
    default (mkTelegram None None None) (telegram config) in
  default false (tg_enabled telegram_config) = false
  ∨ truthy_opt (tg_bot_token telegram_config) = false
  ∨ truthy_opt (tg_chat_id telegram_config) = false →
  send_telegram_message E config message w = (Ok false, w).
Proof.
  intros telegram_config H.
  unfold send_telegram_message, try_except. fold telegram_config.
  destruct (default false (tg_enabled telegram_config)); cbn [negb];
    [|done].
  destruct H as [H | [-> | ->]]; [done | done |].
  by rewrite orb_true_r.
Qed.

(** So is the webhook channel when it is switched off or lacks the URL. *)
Lemma send_discord_message_skipped (message : string) (w : World) :
  let discord_config := default (mkDiscord None None) (discord_webhook config) in
  default false (dc_enabled discord_config) = false
  ∨ truthy_opt (dc_webhook_url discord_config) = false →
  send_discord_message E config message w = (Ok false, w).
Proof.
  intros discord_config H.
  unfold send_discord_message, try_except. fold discord_config.
  destruct (default false (dc_enabled discord_config)); cbn [negb];
    [|done].
  by destruct H as [H | ->].
Qed.

(** The mail channel is left alone when it is switched off, and when a
    setting that is read before the session is opened is missing. *)
Lemma send_email_notification_skipped (subject message : string)
    (w : World) :
  let email_config :=
    default (mkEmail None None None None None None)
      (email_notifications config) in
  default false (em_enabled email_config) = false
  ∨ em_sender_email email_config = None
  ∨ em_recipient_email email_config = None
  ∨ em_smtp_server email_config = None
  ∨ em_smtp_port email_config = None →
  send_email_notification E config subject message w = (Ok false, w).
Proof.
  intros email_config H.
  unfold send_email_notification, try_except, bind, subscript, lift.
  fold email_config.
  destruct (default false (em_enabled email_config)); cbn [negb]; [|done].
  destruct H as [H | H]; [done|].
  destruct (em_sender_email email_config); [|done].
  destruct (em_recipient_email email_config); [|done].
  cbn [ret]. destruct (MIMEText E message) as [[]|e]; [|done].
  destruct (em_smtp_server email_config); [|done].
  destruct (em_smtp_port email_config); [|done].
  by destruct H as [H | [H | [H | H]]].
Qed.

(** Without the password no message is handed to the relay: the method
    returns false, and all it may have done is open the session. *)
Lemma send_email_notification_no_password (subject message : string)
    (w : World) :
  let email_config :=
    default (mkEmail None None None None None None)
      (email_notifications config) in
  em_sender_password email_config = None →
  ∃ w' calls,
    send_email_notification E config subject message w = (Ok false, w')
    ∧ trace w' = trace w ++ calls
    ∧ Forall (λ ev, ∃ server port,
                ev = EvSmtp (SMTP server port) ∨ ev = EvSmtp Starttls) calls.
Proof.
  intros email_config Hpw.
  unfold send_email_notification, try_except, bind, subscript, smtp, ask, lift.
  fold email_config. rewrite Hpw.
  assert (∀ w0 : World, trace w0 = trace w0 ++ []) as Hnil
    by (intros; by rewrite app_nil_r).
  destruct (default false (em_enabled email_config)); cbn [negb];
    [|exists w, []; by cbn].
  destruct (em_sender_email email_config); [|exists w, []; by cbn].
  destruct (em_recipient_email email_config); [|exists w, []; by cbn].
  cbn [ret]. destruct (MIMEText E message) as [[]|e]; [|exists w, []; by cbn].
  destruct (em_smtp_server email_config) as [server|];
    [|exists w, []; by cbn].
  destruct (em_smtp_port email_config) as [port|]; [|exists w, []; by cbn].
  cbn [ret raise].
  destruct (smtp_call E (trace w) (SMTP server port)).
  - cbn [trace log_event].
    destruct (smtp_call E _ Starttls); eexists _, [_; _];
      (split; [reflexivity|]); cbn [trace log_event];
      (split; [by rewrite <- (assoc_L (++))|]);
      repeat constructor; by exists server, port; eauto.
  - eexists _, [_]. split; [reflexivity|]. split; [done|].
    repeat constructor. exists server, port. by left.
Qed.

(** The three sends follow one another whatever each of them returns. *)
Lemma dispatch_sequence (notification_message : string) (w : World) :
  let w1 := (send_telegram_message E config notification_message w).2 in
  let w2 :=
    (send_email_notification E config "Nike AF1 City Pack Paris Available!"
       (replace "🛒" "" (replace "🚨" "" (replace "**" "" notification_message)))
       w1).2 in
  let w3 := (send_discord_message E config notification_message w2).2 in
  dispatch E config notification_message w = (Ok (), w3).
Proof.
  cbv zeta. unfold dispatch, bind.
  destruct (send_telegram_message_returns notification_message w)
    as (b1 & v1 & H1).
  rewrite H1. cbn [snd].
  destruct (send_email_notification_returns
              "Nike AF1 City Pack Paris Available!"
              (replace "🛒" "" (replace "🚨" "" (replace "**" "" notification_message)))
              v1) as (b2 & v2 & H2).
  rewrite H2. cbn [snd].
  destruct (send_discord_message_returns notification_message v2)
    as (b3 & v3 & H3).
  by rewrite H3.
Qed.

(** The formatter never raises. *)
Lemma format_notification_returns (products : list Product) (w : World) :
  ∃ message w', format_notification E products w = (Ok message, w').
Proof.
  unfold format_notification. destruct (bool_decide (products = [])).
  - by eexists _, _.
  - unfold bind. rewrite append_products_lines. by eexists _, _.
Qed.

(** Once the change detector has answered, the rest of the notification
    step returns. *)
Lemma notify_returns (products : list Product) (w w1 : World)
    (changed : bool) :
  should_notify products w = (Ok changed, w1) →
  ∃ w', notify E config products w = (Ok (), w').
Proof.
  intros Hchanged. unfold notify, bind. rewrite Hchanged.
  destruct changed; [|by eexists].
  destruct (format_notification_returns products w1) as (m & w2 & ->).
  destruct (truthy m); [|by eexists].
  rewrite dispatch_sequence. by eexists.
Qed.

(** One turn of the loop returns, whatever happened in it, when the
    interval is not negative: an error inside the turn becomes a pause. *)
Lemma run_iteration_returns (w : World) :
  0 ≤ default 30 (check_interval config) →
  ∃ control w', run_iteration E config w = (Ok control, w').
Proof.
  intros Hinterval. unfold run_iteration, try_except.
  match goal with
  | |- ∃ _ _, match ?body w with _ => _ end = _ =>
      destruct (body w) as [[control|e] w1]
  end.
  - by eexists _, _.
  - destruct (default false (single_run config)); [by eexists _, _|].
    unfold bind, time_sleep.
    destruct (Z.ltb_spec (Z.min (default 30 (check_interval config)) 300) 0);
      [lia|].
    destruct (Z.ltb_spec sleep_max
                (Z.min (default 30 (check_interval config)) 300));
      [unfold sleep_max in *; lia|].
    by eexists _, _.
Qed.

(** A channel that is switched on and has its settings is asked.  The chat
    bot and the webhook make their one post. *)
Lemma send_telegram_message_attempt (message : string) (w : World) :
  let telegram_config :=
    default (mkTelegram None None None) (telegram config) in
  default false (tg_enabled telegram_config) = true →
  truthy_opt (tg_bot_token telegram_config) = true →
  truthy_opt (tg_chat_id telegram_config) = true →
  (send_telegram_message E config message w).2
  = log_event
      (EvPost ("https://api.telegram.org/bot"
               +:+ default "" (tg_bot_token telegram_config) +:+ "/sendMessage")
         (TelegramPayload (default "" (tg_chat_id telegram_config)) message
            "Markdown" false)) w.
Proof.
  intros telegram_config Hon Htoken Hchat.
  unfold send_telegram_message, try_except. fold telegram_config.
  rewrite Hon, Htoken, Hchat. cbn [negb orb].
  unfold bind, requests_post_json, ask.
  destruct (requests_post E (trace w) _ _) as [status|e]; [|done].
  by destruct (status =? 200).
Qed.

Lemma send_discord_message_attempt (message : string) (w : World) :
  let discord_config := default (mkDiscord None None) (discord_webhook config) in
  default false (dc_enabled discord_config) = true →
  truthy_opt (dc_webhook_url discord_config) = true →
  (send_discord_message E config message w).2
  = log_event
      (EvPost (default "" (dc_webhook_url discord_config))
         (DiscordPayload message)) w.
Proof.
  intros discord_config Hon Hurl.
  unfold send_discord_message, try_except. fold discord_config.
  rewrite Hon, Hurl. cbn [negb].
  unfold bind, requests_post_json, ask.
  destruct (requests_post E (trace w) _ _) as [status|e]; [|done].
  by destruct ((status =? 200) || (status =? 204)).
Qed.

(** The mail channel opens its session, once the text of the mail has been
    accepted. *)
Lemma send_email_notification_attempt (subject message sender recipient
    server : string) (port : Z) (w : World) :
  let email_config :=
    default (mkEmail None None None None None None)
      (email_notifications config) in
  default false (em_enabled email_config) = true →
  em_sender_email email_config = Some sender →
  em_recipient_email email_config = Some recipient →
  em_smtp_server email_config = Some server →
  em_smtp_port email_config = Some port →
  MIMEText E message = Ok () →
  ∃ calls,
    trace (send_email_notification E config subject message w).2
    = trace w ++ EvSmtp (SMTP server port) :: calls.
Proof.
  intros email_config Hon Hsender Hrecipient Hserver Hport Htext.
  unfold send_email_notification, try_except, bind, subscript, smtp, ask,
    lift, peek.
  fold email_config.
  rewrite Hon, Hsender, Hrecipient, Hserver, Hport. cbn [negb ret].
  rewrite Htext.
  destruct (smtp_call E (trace w) (SMTP server port)) as [[]|?];
    cbn [ret raise snd trace log_event]; [|by eexists].
  destruct (smtp_call E _ Starttls) as [[]|?];
    cbn [ret raise snd trace log_event];
    [|rewrite <- !(assoc_L (++)); by eexists].
  destruct (em_sender_password email_config) as [password|];
    cbn [ret raise snd trace log_event];
    [|rewrite <- !(assoc_L (++)); by eexists].
  destruct (smtp_call E _ (Login sender password)) as [[]|?];
    cbn [ret raise snd trace log_event];
    [|rewrite <- !(assoc_L (++)); by eexists].
  destruct (as_string E _ _) as [text|?];
    cbn [ret raise snd trace log_event];
    [|rewrite <- !(assoc_L (++)); by eexists].
  destruct (smtp_call E _ (Sendmail sender recipient text)) as [[]|?];
    cbn [ret raise snd trace log_event];
    [|rewrite <- !(assoc_L (++)); by eexists].
  destruct (smtp_call E _ Quit) as [[]|?];
    cbn [ret raise snd trace log_event];
    rewrite <- !(assoc_L (++)); by eexists.
Qed.

End Channels.

(** C9 as stated fails for the mail channel without its password.  The
    channel is switched on and the one setting it lacks is the password; it
    is not skipped: the session is opened and STARTTLS is asked for before
    the missing password ends the attempt. *)
Lemma mail_without_password_counterexample :
  em_sender_password
    (default (mkEmail None None None None None None)
       (email_notifications Cases.no_password)) = None
  ∧ send_email_notification (Cases.shop Cases.detail 200) Cases.no_password
      "Nike AF1 City Pack Paris Available!" "AF1" Sim.fresh
    ≠ (Ok false, Sim.fresh)
  ∧ trace (send_email_notification (Cases.shop Cases.detail 200)
             Cases.no_password "Nike AF1 City Pack Paris Available!" "AF1"
             Sim.fresh).2
    = [EvSmtp (SMTP "smtp.example.org" 587); EvSmtp Starttls].
Proof.
  split; [reflexivity|]. split; [|vm_compute; reflexivity].
  intros Hskipped.
  assert (trace (send_email_notification (Cases.shop Cases.detail 200)
                   Cases.no_password "Nike AF1 City Pack Paris Available!"
                   "AF1" Sim.fresh).2
          = [EvSmtp (SMTP "smtp.example.org" 587); EvSmtp Starttls]) as Hcalls
    by (vm_compute; reflexivity).
  rewrite Hskipped in Hcalls. discriminate Hcalls.
Qed.

(** C9 (amended).  Each of the three sends returns, whatever the message,
    the configuration and the answers of the outside.  A channel that is
    switched off is skipped: it returns false and asks nothing of the
    outside; so is the chat bot without token or chat, the webhook without
    URL, and the mail channel without sender, recipient, server or port.
    The mail channel without its password is not skipped: it returns false
    after opening the session, no message being handed over.  The dispatch
    runs the three sends one after the other and returns.  In it every
    channel that is switched on and has its settings is asked, whatever the
    channels before it answered or raised: the chat bot makes its post, the
    mail channel opens its session once the text of the mail is accepted,
    the webhook makes its post.  The notification step of the loop returns
    once the change detector has answered. *)
Theorem channels_isolated (E : Env) (config : Config) (message : string)
    (w : World) :
  let telegram_config := default (mkTelegram None None None) (telegram config) in
  let email_config :=
    default (mkEmail None None None None None None)
      (email_notifications config) in
  let discord_config := default (mkDiscord None None) (discord_webhook config) in
  let w1 := (send_telegram_message E config message w).2 in
  let w2 :=
    (send_email_notification E config "Nike AF1 City Pack Paris Available!"
       (plain_text message) w1).2 in
  let w3 := (send_discord_message E config message w2).2 in
  (∃ sent w', send_telegram_message E config message w = (Ok sent, w'))
  ∧ (∀ subject, ∃ sent w',
       send_email_notification E config subject message w = (Ok sent, w'))
  ∧ (∃ sent w', send_discord_message E config message w = (Ok sent, w'))
  ∧ (default false (tg_enabled telegram_config) = false
     ∨ truthy_opt (tg_bot_token telegram_config) = false
     ∨ truthy_opt (tg_chat_id telegram_config) = false →
     send_telegram_message E config message w = (Ok false, w))
  ∧ (default false (dc_enabled discord_config) = false
     ∨ truthy_opt (dc_webhook_url discord_config) = false →
     send_discord_message E config message w = (Ok false, w))
  ∧ (default false (em_enabled email_config) = false
     ∨ em_sender_email email_config = None
     ∨ em_recipient_email email_config = None
     ∨ em_smtp_server email_config = None
     ∨ em_smtp_port email_config = None →
     ∀ subject,
       send_email_notification E config subject message w = (Ok false, w))
  ∧ (em_sender_password email_config = None →
     ∀ subject, ∃ w' calls,
       send_email_notification E config subject message w = (Ok false, w')
       ∧ trace w' = trace w ++ calls
       ∧ Forall (λ ev, ∃ server port,
                   ev = EvSmtp (SMTP server port) ∨ ev = EvSmtp Starttls) calls)
  ∧ dispatch E config message w = (Ok (), w3)
  ∧ (default false (tg_enabled telegram_config) = true →
     truthy_opt (tg_bot_token telegram_config) = true →
     truthy_opt (tg_chat_id telegram_config) = true →
     trace w1
     = trace w
       ++ [EvPost ("https://api.telegram.org/bot"
                   +:+ default "" (tg_bot_token telegram_config)
                   +:+ "/sendMessage")
             (TelegramPayload (default "" (tg_chat_id telegram_config))
                message "Markdown" false)])
  ∧ (∀ sender recipient server port,
       default false (em_enabled email_config) = true →
       em_sender_email email_config = Some sender →
       em_recipient_email email_config = Some recipient →
       em_smtp_server email_config = Some server →
       em_smtp_port email_config = Some port →
       MIMEText E (plain_text message) = Ok () →
       ∃ calls, trace w2 = trace w1 ++ EvSmtp (SMTP server port) :: calls)
  ∧ (default false (dc_enabled discord_config) = true →
     truthy_opt (dc_webhook_url discord_config) = true →
     trace w3
     = trace w2
       ++ [EvPost (default "" (dc_webhook_url discord_config))
             (DiscordPayload message)])
  ∧ (∀ products changed w0,
       should_notify products w = (Ok changed, w0) →
       ∃ w', notify E config products w = (Ok (), w')).
Proof.
  intros telegram_config email_config discord_config w1 w2 w3.
  split; [apply send_telegram_message_returns|].
  split; [intros; apply send_email_notification_returns|].
  split; [apply send_discord_message_returns|].
  split; [apply send_telegram_message_skipped|].
  split; [apply send_discord_message_skipped|].
  split; [intros H subject; by apply send_email_notification_skipped|].
  split; [intros H subject; by apply send_email_notification_no_password|].
  split; [apply dispatch_sequence|].
  split.
  { intros Hon Htoken Hchat. unfold w1.
    by rewrite send_telegram_message_attempt. }
  split.
  { intros sender recipient server port Hon Hsender Hrecipient Hserver Hport
      Htext.
    by apply (send_email_notification_attempt E config _ _ sender recipient). }
  split.
  { intros Hon Hurl. unfold w3.
    by rewrite send_discord_message_attempt. }
  intros products changed w0. apply notify_returns.
Qed.

(** The first channel fails, its post raising; the mail channel opens its
    session and the webhook is asked all the same, and the dispatch
    returns. *)
Lemma channels_isolated_witness :
  requests_post Cases.posts_raise (trace Sim.fresh)
    "https://api.telegram.org/bottoken/sendMessage"
    (TelegramPayload "42" "AF1" "Markdown" false) = Raise RequestException
  ∧ (dispatch Cases.posts_raise Cases.all_channels "AF1" Sim.fresh).1 = Ok ()
  ∧ ∃ calls,
      trace (dispatch Cases.posts_raise Cases.all_channels "AF1" Sim.fresh).2
      = [EvPost "https://api.telegram.org/bottoken/sendMessage"
           (TelegramPayload "42" "AF1" "Markdown" false)]
        ++ EvSmtp (SMTP "smtp.example.org" 587) :: calls
        ++ [EvPost "https://discord.example/hook" (DiscordPayload "AF1")].
Proof.
  destruct (channels_isolated Cases.posts_raise Cases.all_channels "AF1"
              Sim.fresh)
    as (_ & _ & _ & _ & _ & _ & _ & Hdispatch & Hchat & Hmail & Hhook & _).
  split; [reflexivity|]. rewrite Hdispatch. split; [reflexivity|].
  destruct (Hmail "bot@example.org" "me@example.org" "smtp.example.org" 587)
    as [calls Hcalls]; try reflexivity.
  exists calls. cbn [snd].
  rewrite Hhook, Hcalls, Hchat by reflexivity.
  reflexivity.
Defined.

(** Scenario D: the chat bot is off and the webhook answers 500; the mail
    is sent, the webhook is asked, and the dispatch returns. *)
Example dispatch_webhook_error :
  dispatch (Cases.shop Cases.detail 500) Cases.scenario_d "AF1" Sim.fresh
  = (Ok (),
     mkWorld NoFile WriteOk 0
       [EvSmtp (SMTP "smtp.example.org" 587); EvSmtp Starttls;
        EvSmtp (Login "bot@example.org" "secret");
        EvSmtp (Sendmail "bot@example.org" "me@example.org"
                  (Cases.mail_text "Nike AF1 City Pack Paris Available!"
                     "AF1"));
        EvSmtp Quit;
        EvPost "https://discord.example/hook" (DiscordPayload "AF1")])
  ∧ send_discord_message (Cases.shop Cases.detail 500) Cases.scenario_d "AF1"
      Sim.fresh
    = (Ok false,
       log_event (EvPost "https://discord.example/hook" (DiscordPayload "AF1"))
         Sim.fresh).
Proof. split; vm_compute; reflexivity. Qed.

(** A post that raises in the first channel does not keep the mail from
    being sent nor the webhook from being asked. *)
Example dispatch_post_raises :
  trace (dispatch Cases.posts_raise Cases.all_channels "AF1" Sim.fresh).2
  = [EvPost "https://api.telegram.org/bottoken/sendMessage"
       (TelegramPayload "42" "AF1" "Markdown" false);
     EvSmtp (SMTP "smtp.example.org" 587); EvSmtp Starttls;
     EvSmtp (Login "bot@example.org" "secret");
     EvSmtp (Sendmail "bot@example.org" "me@example.org"
               (Cases.mail_text "Nike AF1 City Pack Paris Available!" "AF1"));
     EvSmtp Quit;
     EvPost "https://discord.example/hook" (DiscordPayload "AF1")]
  ∧ (dispatch Cases.posts_raise Cases.all_channels "AF1" Sim.fresh).1 = Ok ().
Proof. split; vm_compute; reflexivity. Qed.

(** ** Effects of the primitives *)

Section Effects.

#[global] Instance appended_preorder (P : Event → Prop) : PreOrder (appended P).
Proof.
  split.
  - intros w. exists []. by rewrite app_nil_r.
  - intros w1 w2 w3 (evs1 & H1 & HP1) (evs2 & H2 & HP2).
    exists (evs1 ++ evs2). rewrite H2, H1, <- (assoc_L (++)).
    split; [done|]. by apply Forall_app.
Qed.

#[global] Instance file_kept_preorder : PreOrder file_kept.
Proof.
  split.
  - by intros w.
  - intros w1 w2 w3 (H1 & H2 & H3) (H4 & H5 & H6).
    repeat split; congruence.
Qed.

Lemma appended_mono (P Q : Event → Prop) (w w' : World) :
  (∀ ev, P ev → Q ev) → appended P w w' → appended Q w w'.
Proof.
  intros HPQ (evs & Htrace & HP). exists evs. split; [done|].
  by eapply Forall_impl.
Qed.

Context {A B : Type} (R : relation World) `{!PreOrder R}.

Lemma frame_ret (a : A) : ∀ w, R w (ret a w).2.
Proof. by intros w. Qed.

Lemma frame_raise (e : exn) : ∀ w, R w (@raise A e w).2.
Proof. by intros w. Qed.

Lemma frame_lift (r : result A) : ∀ w, R w (lift r w).2.
Proof. by intros w. Qed.

Lemma frame_peek (answer : list Event → result A) :
  ∀ w, R w (peek answer w).2.
Proof. by intros w. Qed.

Lemma frame_subscript (key : string) (o : option A) :
  ∀ w, R w (subscript key o w).2.
Proof. intros w. by destruct o. Qed.

Lemma frame_bind (m : M A) (k : A → M B) :
  (∀ w, R w (m w).2) → (∀ a w, R w (k a w).2) → ∀ w, R w (bind m k w).2.
Proof.
  intros Hm Hk w. unfold bind. specialize (Hm w).
  destruct (m w) as [[a|e] w1]; [|done].
  etrans; [exact Hm | apply Hk].
Qed.

Lemma frame_try_except (body : M A) (handler : exn → M A) :
  (∀ w, R w (body w).2) → (∀ e w, R w (handler e w).2) →
  ∀ w, R w (try_except body handler w).2.
Proof.
  intros Hbody Hhandler w. unfold try_except. specialize (Hbody w).
  destruct (body w) as [[a|e] w1]; [done|].
  etrans; [exact Hbody | apply Hhandler].
Qed.

Lemma frame_try_except_only (caught : exn → bool) (body : M A)
    (handler : exn → M A) :
  (∀ w, R w (body w).2) → (∀ e w, R w (handler e w).2) →
  ∀ w, R w (try_except_only caught body handler w).2.
Proof.
  intros Hbody Hhandler w. unfold try_except_only. specialize (Hbody w).
  destruct (body w) as [[a|e] w1]; [done|].
  destruct (caught e); [|done]. etrans; [exact Hbody | apply Hhandler].
Qed.

End Effects.

Lemma appended_ask {A : Type} (P : Event → Prop) (ev : Event)
    (answer : list Event → result A) :
  P ev → ∀ w, appended P w (ask ev answer w).2.
Proof. intros HP w. exists [ev]. split; [done|]. by constructor. Qed.

Lemma file_kept_ask {A : Type} (ev : Event) (answer : list Event → result A) :
  ∀ w, file_kept w (ask ev answer w).2.
Proof. by intros w. Qed.

(** One step of a proof that a method stays within a relation on worlds. *)
Ltac frame_step :=
  first
    [ apply frame_ret; apply _ | apply frame_raise; apply _
    | apply frame_lift; apply _ | apply frame_peek; apply _
    | apply frame_subscript; apply _
    | apply file_kept_ask
    | apply frame_bind; [apply _ | | intros ?]
    | apply frame_try_except; [apply _ | | intros ?]
    | apply frame_try_except_only; [apply _ | | intros ?]
    | match goal with
      | |- context [if ?b then _ else _] => destruct b
      | |- context [match ?x with Some _ => _ | None => _ end] => destruct x
      end ].

Ltac frame := cbv zeta; repeat frame_step.

(** ** Effects of the methods *)

Create HintDb frames.

Section MethodEffects.

Variable E : Env.
Variable config : Config.

Lemma bind_ret_l {A B : Type} (a : A) (k : A → M B) : bind (ret a) k = k a.
Proof. reflexivity. Qed.

Lemma bind_raise_l {A B : Type} (e : exn) (k : A → M B) :
  bind (raise e) k = raise e.
Proof. reflexivity. Qed.

Lemma card_product_link_frame (R : relation World) `{!PreOrder R}
    (card : Card) :
  ∀ w, R w (card_product_link E card w).2.
Proof.
  intros w. destruct (card_product_link E card w) as [r w'] eqn:Hlink.
  by apply card_product_link_world in Hlink as ->.
Qed.

(** The two fetching methods leave the state file alone. *)
Lemma get_product_details_keeps_file (product_url : string) :
  ∀ w, file_kept w (get_product_details E config product_url w).2.
Proof. unfold get_product_details, requests_get_page. frame. Qed.

Lemma process_card_keeps_file (card : Card) (products : list Product) :
  ∀ w, file_kept w (process_card E config card products w).2.
Proof.
  unfold process_card. frame.
  all: first [ apply card_product_link_frame; apply _
             | apply get_product_details_keeps_file ].
Qed.

Lemma process_cards_keeps_file (product_cards : list Card)
    (products : list Product) :
  ∀ w, file_kept w (process_cards E config product_cards products w).2.
Proof.
  revert products. induction product_cards as [|card rest IH]; intros products.
  - cbn [process_cards]. frame.
  - cbn [process_cards].
    apply frame_bind; [apply _ | | intros ps; apply IH].
    apply frame_try_except; [apply _ | | intros e; apply frame_ret; apply _].
    apply process_card_keeps_file.
Qed.

Lemma check_nike_availability_keeps_file :
  ∀ w, file_kept w (check_nike_availability E config w).2.
Proof.
  unfold check_nike_availability, requests_get_page. frame.
  all: apply process_cards_keeps_file.
Qed.

(** All they ask of the outside are pages, with the configured user agent. *)
Lemma get_product_details_gets (product_url : string) :
  ∀ w, appended (is_get_with (user_agent config)) w
         (get_product_details E config product_url w).2.
Proof.
  unfold get_product_details, requests_get_page, subscript.
  destruct (user_agent config) as [ua|].
  - rewrite bind_ret_l. frame. apply appended_ask. by exists product_url, ua.
  - rewrite bind_raise_l. frame.
Qed.

Lemma process_card_gets (card : Card) (products : list Product) :
  ∀ w, appended (is_get_with (user_agent config)) w
         (process_card E config card products w).2.
Proof.
  unfold process_card.
  apply frame_bind; [apply _ | apply card_product_link_frame; apply _ |].
  intros link. cbv zeta.
  destruct (matches_search_terms E config _); [|apply frame_ret; apply _].
  apply frame_bind; [apply _ | apply get_product_details_gets |].
  intros details. destruct (retained _); apply frame_ret; apply _.
Qed.

Lemma process_cards_gets (product_cards : list Card) (products : list Product) :
  ∀ w, appended (is_get_with (user_agent config)) w
         (process_cards E config product_cards products w).2.
Proof.
  revert products. induction product_cards as [|card rest IH]; intros products.
  - cbn [process_cards]. apply frame_ret; apply _.
  - cbn [process_cards].
    apply frame_bind; [apply _ | | intros ps; apply IH].
    apply frame_try_except; [apply _ | | intros e; apply frame_ret; apply _].
    apply process_card_gets.
Qed.

Lemma check_nike_availability_gets :
  ∀ w, appended (is_get_with (user_agent config)) w
         (check_nike_availability E config w).2.
Proof.
  unfold check_nike_availability, requests_get_page, subscript.
  pose proof process_cards_gets as Hcards.
  apply frame_try_except; [apply _ | | intros e; apply frame_ret; apply _].
  destruct (user_agent config) as [ua|];
    [rewrite bind_ret_l | rewrite bind_raise_l; apply frame_raise; apply _].
  apply frame_bind; [apply _ | apply frame_subscript; apply _ | intros url].
  apply frame_bind; [apply _ | | intros response].
  { apply appended_ask. by exists url, ua. }
  destruct (negb _); [apply frame_ret; apply _|].
  apply frame_bind; [apply _ | apply frame_lift; apply _ | intros soup].
  apply Hcards.
Qed.

(** The formatter only reads the clock. *)
Lemma strftime_now_reads_clock :
  ∀ w, appended is_now w (strftime_now E w).2.
Proof. unfold strftime_now. by apply appended_ask. Qed.


Lemma append_products_reads_clock (products : list Product)
    (message_lines : list string) :
  ∀ w, appended is_now w (append_products E products message_lines w).2.
Proof.
  revert message_lines.
  induction products as [|p rest IH]; intros message_lines;
    cbn [append_products]; [apply frame_ret; apply _|].
  apply frame_bind;
    [apply _ | apply strftime_now_reads_clock | intros now; apply IH].
Qed.


Lemma format_notification_reads_clock (products : list Product) :
  ∀ w, appended is_now w (format_notification E products w).2.
Proof.
  unfold format_notification. destruct (bool_decide (products = [])).
  - apply frame_bind; [apply _ | apply strftime_now_reads_clock | intros now].
    apply frame_ret; apply _.
  - apply frame_bind;
      [apply _ | apply append_products_reads_clock | intros message_lines].
    apply frame_ret; apply _.
Qed.

(** The channels only post and talk to the mail relay. *)
Lemma send_telegram_message_keeps_file (message : string) :
  ∀ w, file_kept w (send_telegram_message E config message w).2.
Proof. unfold send_telegram_message, requests_post_json. frame. Qed.

Lemma send_email_notification_keeps_file (subject message : string) :
  ∀ w, file_kept w (send_email_notification E config subject message w).2.
Proof. unfold send_email_notification, smtp. frame. Qed.

Lemma send_discord_message_keeps_file (message : string) :
  ∀ w, file_kept w (send_discord_message E config message w).2.
Proof. unfold send_discord_message, requests_post_json. frame. Qed.

Lemma requests_post_json_sends (url : string) (payload : Payload) :
  ∀ w, appended is_send w (requests_post_json E url payload w).2.
Proof. apply appended_ask. left. by exists url, payload. Qed.

Lemma smtp_sends (call : SmtpCall) :
  ∀ w, appended is_send w (smtp E call w).2.
Proof. apply appended_ask. right. by exists call. Qed.

Lemma send_telegram_message_sends (message : string) :
  ∀ w, appended is_send w (send_telegram_message E config message w).2.
Proof.
  unfold send_telegram_message. frame. apply requests_post_json_sends.
Qed.

Lemma send_email_notification_sends (subject message : string) :
  ∀ w, appended is_send w
         (send_email_notification E config subject message w).2.
Proof. unfold send_email_notification. frame. all: apply smtp_sends. Qed.

Lemma send_discord_message_sends (message : string) :
  ∀ w, appended is_send w (send_discord_message E config message w).2.
Proof.
  unfold send_discord_message. frame. apply requests_post_json_sends.
Qed.

Lemma dispatch_keeps_file (notification_message : string) :
  ∀ w, file_kept w (dispatch E config notification_message w).2.
Proof.
  unfold dispatch.
  apply frame_bind;
    [apply _ | apply send_telegram_message_keeps_file | intros sent1].
  apply frame_bind;
    [apply _ | apply send_email_notification_keeps_file | intros sent2].
  apply frame_bind;
    [apply _ | apply send_discord_message_keeps_file | intros sent3].
  apply frame_ret; apply _.
Qed.

Lemma dispatch_sends (notification_message : string) :
  ∀ w, appended is_send w (dispatch E config notification_message w).2.
Proof.
  unfold dispatch.
  apply frame_bind; [apply _ | apply send_telegram_message_sends | intros sent1].
  apply frame_bind;
    [apply _ | apply send_email_notification_sends | intros sent2].
  apply frame_bind; [apply _ | apply send_discord_message_sends | intros sent3].
  apply frame_ret; apply _.
Qed.

(** The change detector asks nothing of the outside. *)
Lemma should_notify_trace (products : list Product) (w : World) :
  trace (should_notify products w).2 = trace w.
Proof.
  unfold should_notify, bind, try_except_only, try_except, load_last_state,
    dump_state, ret.
  destruct (bool_decide (products = [])); [done|].
  destruct (state_file w) as [| |e| | |m]; cbn [is_missing_or_corrupt];
    try done; try destruct (is_missing_or_corrupt e); try done;
    destruct (state_differs _ _); try done; by destruct (write_mode w).
Qed.

End MethodEffects.

(** ** Further properties of the detail extractor and the availability check *)

(** X1.  [get_product_details] always returns, after at most one request.
    What it returns is the empty dictionary unless the configuration has a
    user agent, the request was answered with status 200 and the parser
    accepted the body; only then does it carry sizes and [in_stock]. *)
Theorem get_product_details_degrades (E : Env) (config : Config)
    (product_url : string) (w : World) :
  ∃ details w',
    get_product_details E config product_url w = (Ok details, w')
    ∧ (w' = w
       ∨ ∃ ua, user_agent config = Some ua
               ∧ w' = log_event (EvGet product_url ua) w)
    ∧ (details = no_details
       ∨ ∃ ua response soup,
           user_agent config = Some ua
           ∧ requests_get E (trace w) product_url ua = Ok response
           ∧ status_code response = 200
           ∧ BeautifulSoup E (content response) = Ok soup
           ∧ is_Some (d_sizes details)
           ∧ is_Some (d_in_stock details)).
Proof.
  unfold get_product_details, try_except, bind, subscript, requests_get_page,
    ask, lift.
  destruct (user_agent config) as [ua|]; cbn [ret raise];
    [|by eexists _, _; split; [reflexivity|]; split; left].
  destruct (requests_get E (trace w) product_url ua) as [response|e] eqn:Hget;
    [|eexists _, _; split; [reflexivity|]; split; [right; by exists ua | by left]].
  destruct (status_code response =? 200) eqn:Hstatus; cbn [negb];
    [|eexists _, _; split; [reflexivity|]; split; [right; by exists ua | by left]].
  apply Z.eqb_eq in Hstatus.
  destruct (BeautifulSoup E (content response)) as [soup|e] eqn:Hparse;
    [|eexists _, _; split; [reflexivity|]; split; [right; by exists ua | by left]].
  eexists _, _. split; [reflexivity|]. split; [right; by exists ua|].
  right. exists ua, response, soup. cbn [d_sizes d_in_stock].
  repeat split; eauto.
Qed.

(** X2.  On a page that was fetched and parsed, the sizes are the texts of
    the size buttons whose [disabled] value is false as a truth value and
    whose text is not empty, in the order of the page; no size is the empty
    string. *)
Theorem detail_sizes_in_page_order (E : Env) (config : Config)
    (product_url ua : string) (w : World) (response : Response) (soup : Soup) :
  user_agent config = Some ua →
  requests_get E (trace w) product_url ua = Ok response →
  status_code response = 200 →
  BeautifulSoup E (content response) = Ok soup →
  ∃ details sizes,
    get_product_details E config product_url w
      = (Ok details, log_event (EvGet product_url ua) w)
    ∧ d_sizes details = Some sizes
    ∧ sizes = btn_text <$>
                List.filter (λ btn, negb (truthy_opt (btn_disabled btn))
                                    && truthy (btn_text btn))
                  (soup_size_buttons soup)
    ∧ Forall (λ size, size ≠ EmptyString) sizes.
Proof.
  intros Hua Hget Hstatus Hparse.
  destruct (get_product_details_page E config _ _ _ _ _ Hua Hget Hstatus Hparse)
    as (details & Hrun & Hsizes & _).
  exists details, (collect_sizes (soup_size_buttons soup) []).
  split; [done|]. split; [done|]. rewrite collect_sizes_filter. cbn [app].
  split; [done|]. apply Forall_fmap, Forall_forall. intros btn Hin.
  apply list_elem_of_In, filter_In in Hin as [_ Hkeep].
  apply andb_true_iff in Hkeep as [_ Htext]. cbn. by destruct (btn_text btn).
Qed.

Lemma detail_sizes_in_page_order_witness :
  user_agent Cases.config = Some (default "" (user_agent Cases.config))
  ∧ ∃ details,
      (get_product_details (Cases.shop Cases.detail 200) Cases.config
         Cases.detail_url Sim.fresh).1 = Ok details
      ∧ d_sizes details = Some ["9"; "10"].
Proof.
  split; [reflexivity|].
  destruct (detail_sizes_in_page_order (Cases.shop Cases.detail 200)
              Cases.config Cases.detail_url
              (default "" (user_agent Cases.config)) Sim.fresh
              (mkResponse 200 "detail") Cases.detail)
    as (details & sizes & Hrun & Hsizes & -> & _);
    [reflexivity | reflexivity | reflexivity | reflexivity |].
  exists details. by rewrite Hrun.
Defined.

Section AvailabilityMore.

Variable E : Env.
Variable config : Config.

(** The loop over the cards keeps every property that holds of each product
    a matching card can yield. *)
Lemma process_cards_forall (Q : Product → Prop) (product_cards : list Card)
    (products : list Product) (w w' : World) (r : result (list Product)) :
  (∀ card link details,
     matches_search_terms E config (Some (card_product_name E card)) = true →
     Q (product_info (card_product_name E card) (card_product_price card)
          link details)) →
  process_cards E config product_cards products w = (r, w') →
  Forall Q products →
  ∃ products', r = Ok products' ∧ Forall Q products'.
Proof.
  intros HQ. revert products w.
  induction product_cards as [|card rest IH]; intros products w Hrun Hall.
  - injection Hrun as <- _. by exists products.
  - cbn [process_cards] in Hrun. unfold bind, try_except in Hrun.
    destruct (process_card E config card products w) as [r1 w1] eqn:Hcard.
    apply process_card_result in Hcard
      as [[e ->] | [-> | (link & d & _ & Hmatch & _ & _ & ->)]];
      cbn [ret] in Hrun.
    + by apply (IH products w1).
    + by apply (IH products w1).
    + apply (IH _ w1 Hrun). apply Forall_app. split; [done|].
      apply Forall_singleton. by apply HQ.
Qed.

Lemma check_nike_availability_forall (Q : Product → Prop) (w w' : World)
    (products : list Product) :
  (∀ card link details,
     matches_search_terms E config (Some (card_product_name E card)) = true →
     Q (product_info (card_product_name E card) (card_product_price card)
          link details)) →
  check_nike_availability E config w = (Ok products, w') →
  Forall Q products.
Proof.
  intros HQ.
  unfold check_nike_availability, try_except, bind, subscript,
    requests_get_page, ask, lift.
  destruct (user_agent config) as [ua|]; cbn [ret raise];
    [|by intros [= <- _]].
  destruct (nike_search_url config) as [url|]; cbn [ret raise];
    [|by intros [= <- _]].
  destruct (requests_get E (trace w) url ua) as [response|e];
    [|by intros [= <- _]].
  destruct (negb (status_code response =? 200)); [by intros [= <- _]|].
  destruct (BeautifulSoup E (content response)) as [soup|e];
    [|by intros [= <- _]].
  match goal with
  | |- context [process_cards E config ?cards [] ?w0] =>
      destruct (process_cards E config cards [] w0) as [r1 w1] eqn:Hcards
  end.
  apply (process_cards_forall Q) in Hcards as (ps & -> & Hall); [|done..].
  by intros [= <- _].
Qed.

End AvailabilityMore.

(** X3.  Every product the availability check returns has a name that is
    not empty and that the match filter accepts. *)
Theorem availability_products_match (E : Env) (config : Config)
    (w w' : World) (products : list Product) :
  check_nike_availability E config w = (Ok products, w') →
  Forall (λ p, p_name p ≠ EmptyString
               ∧ matches_search_terms E config (Some (p_name p)) = true)
    products.
Proof.
  apply check_nike_availability_forall.
  intros card link details Hmatch. cbn [product_info p_name].
  split; [|done]. intros Hempty. rewrite Hempty in Hmatch. discriminate Hmatch.
Qed.

Lemma availability_products_match_witness :
  check_nike_availability (Cases.shop Cases.detail 200) Cases.config Sim.fresh
    = (Ok [Cases.paris],
       (check_nike_availability (Cases.shop Cases.detail 200) Cases.config
          Sim.fresh).2)
  ∧ matches_search_terms (Cases.shop Cases.detail 200) Cases.config
      (Some (p_name Cases.paris)) = true.
Proof.
  split; [vm_compute; reflexivity|].
  pose proof (availability_products_match (Cases.shop Cases.detail 200)
                Cases.config Sim.fresh
                (check_nike_availability (Cases.shop Cases.detail 200)
                   Cases.config Sim.fresh).2 [Cases.paris]) as Hall.
  apply Forall_singleton in Hall; [apply Hall | vm_compute; reflexivity].
Defined.

(** X4.  The availability check never touches the state file, and all it
    asks of the outside are pages, each request carrying the configured
    user agent. *)
Theorem availability_only_fetches (E : Env) (config : Config) (w : World) :
  let w' := (check_nike_availability E config w).2 in
  file_kept w w'
  ∧ ∃ evs, trace w' = trace w ++ evs
           ∧ Forall (λ ev, ∃ url ua, ev = EvGet url ua
                                     ∧ user_agent config = Some ua) evs.
Proof.
  split; [apply check_nike_availability_keeps_file|].
  apply check_nike_availability_gets.
Qed.

(** X5.  A card whose link cannot be resolved, or whose name the match
    filter rejects, changes nothing: the loop goes on with the next card
    from the same list and the same world, without a request. *)
Theorem skipped_card_changes_nothing (E : Env) (config : Config) (card : Card)
    (rest : list Card) (products : list Product) (w : World) :
  (∃ e, card_product_link E card w = (Raise e, w))
  ∨ matches_search_terms E config (Some (card_product_name E card)) = false →
  process_cards E config (card :: rest) products w
  = process_cards E config rest products w.
Proof.
  intros Hskip. cbn [process_cards].
  unfold bind at 1. unfold try_except, process_card, bind.
  destruct (card_product_link E card w) as [[link|e] w1] eqn:Hlink.
  - pose proof (card_product_link_world _ _ _ _ _ Hlink) as ->.
    destruct Hskip as [[e [=]] | ->]. done.
  - by pose proof (card_product_link_world _ _ _ _ _ Hlink) as ->.
Qed.

Lemma skipped_card_changes_nothing_witness :
  matches_search_terms (Cases.shop Cases.detail 200) Cases.config
    (Some (card_product_name (Cases.shop Cases.detail 200) Samples.other_card))
  = false
  ∧ process_cards (Cases.shop Cases.detail 200) Cases.config
      [Samples.other_card; Cases.card] [] Sim.fresh
    = process_cards (Cases.shop Cases.detail 200) Cases.config [Cases.card] []
        Sim.fresh.
Proof.
  split; [reflexivity|].
  apply (skipped_card_changes_nothing (Cases.shop Cases.detail 200)
           Cases.config Samples.other_card [Cases.card] [] Sim.fresh).
  right. reflexivity.
Defined.

(** ** Further properties of the change detector and the notification step *)

Section DetectorMore.

Lemma build_state_size (products : list Product)
    (state : gmap string Snapshot) :
  (size (build_state products state) ≤ size state + length products)%nat.
Proof.
  revert state. induction products as [|p rest IH]; intros state; simpl.
  - lia.
  - etrans; [apply IH|]. rewrite map_size_insert.
    destruct (state !! product_id p); simpl; lia.
Qed.

Lemma build_state_size_order (ps qs : list Product)
    (state : gmap string Snapshot) :
  Forall2 same_up_to_size_order ps qs →
  build_state ps state = build_state qs state.
Proof.
  intros Hsame. revert state.
  induction Hsame as [|p q ps qs (Hn & Hp & Hl & Hs & Hperm) _ IH];
    intros state; [done|].
  cbn [build_state]. rewrite IH. f_equal.
  unfold product_id, snapshot. rewrite Hn, Hp, Hl, Hs.
  by rewrite (sorted_permutation _ _ Hperm).
Qed.


End DetectorMore.

(** X6.  A state file that exists and cannot be read is not taken for an
    empty state: for a non-empty product list [should_notify] raises the
    error of the read, and so does the notification step, in the world they
    were given. *)
Theorem unreadable_state_raises (E : Env) (config : Config)
    (products : list Product) (w : World) :
  products ≠ [] →
  state_file w = Unreadable →
  should_notify products w = (Raise OSError, w)
  ∧ notify E config products w = (Raise OSError, w).
Proof.
  intros Hne Hfile.
  assert (should_notify products w = (Raise OSError, w)) as Hraise.
  { rewrite should_notify_nonempty by done. by rewrite Hfile. }
  split; [done|]. unfold notify, bind. by rewrite Hraise.
Qed.

Lemma unreadable_state_raises_witness :
  [Cases.paris] ≠ []
  ∧ state_file Samples.locked = Unreadable
  ∧ notify Sim.offline Cases.config [Cases.paris] Samples.locked
    = (Raise OSError, Samples.locked).
Proof.
  split; [done|]. split; [reflexivity|].
  apply (unreadable_state_raises Sim.offline Cases.config [Cases.paris]
           Samples.locked); [done | reflexivity].
Defined.

(** X7.  Two product lists that differ only in the order in which each
    product lists its sizes get the same answer from [should_notify], with
    the same effect on the state file. *)
Theorem size_order_ignored (ps qs : list Product) (w : World) :
  Forall2 same_up_to_size_order ps qs →
  should_notify ps w = should_notify qs w.
Proof.
  intros Hsame. unfold should_notify.
  rewrite (build_state_size_order ps qs ∅ Hsame).
  by destruct Hsame.
Qed.

Lemma size_order_ignored_witness :
  Forall2 same_up_to_size_order [Cases.paris] [Samples.paris_reordered]
  ∧ should_notify [Samples.paris_reordered] Cases.notified
    = (Ok false, Cases.notified).
Proof.
  assert (Forall2 same_up_to_size_order [Cases.paris]
            [Samples.paris_reordered]) as Hsame.
  { constructor; [|constructor]. repeat split. apply Permutation_swap. }
  split; [exact Hsame|].
  rewrite <- (size_order_ignored [Cases.paris] [Samples.paris_reordered]
                Cases.notified Hsame).
  vm_compute. reflexivity.
Defined.

(** X8.  In the current mapping the value under a key is the snapshot of
    the last product of the list with that identifier: products that share
    an identifier shadow one another, and the mapping has at most as many
    entries as the list has products. *)
Theorem current_state_last_wins (products : list Product) (k : string) :
  build_state products ∅ !! k
  = snapshot <$> List.find (λ p, bool_decide (product_id p = k))
                   (reverse products)
  ∧ (size (build_state products ∅) ≤ length products)%nat.
Proof.
  split.
  - rewrite build_state_lookup.
    by destruct (List.find _ (reverse products)).
  - pose proof (build_state_size products ∅) as Hsize.
    by rewrite map_size_empty in Hsize.
Qed.

(** X9.  When the state file holds the mapping of the products found, the
    notification step does nothing at all: no clock reading, no request, no
    write. *)
Theorem unchanged_products_send_nothing (E : Env) (config : Config)
    (products : list Product) (w : World) :
  products ≠ [] →
  state_file w = Stored (build_state products ∅) →
  notify E config products w = (Ok (), w).
Proof.
  intros Hne Hfile. unfold notify, bind.
  rewrite should_notify_nonempty by done. rewrite Hfile.
  by rewrite bool_decide_eq_true_2.
Qed.

Lemma unchanged_products_send_nothing_witness :
  [Cases.paris] ≠ []
  ∧ state_file Cases.notified = Stored (build_state [Cases.paris] ∅)
  ∧ notify (Cases.shop Cases.detail 200) Cases.all_channels [Cases.paris]
      Cases.notified = (Ok (), Cases.notified).
Proof.
  split; [done|]. split; [reflexivity|].
  apply (unchanged_products_send_nothing (Cases.shop Cases.detail 200)
           Cases.all_channels [Cases.paris] Cases.notified);
    [done | reflexivity].
Defined.



(** X11.  For the empty product list the notification step never looks at
    the state file: from every world it reads the clock once and dispatches
    the absence message, so the message goes out on every cycle that finds
    nothing. *)
Theorem absence_sent_every_cycle (E : Env) (config : Config) (w : World) :
  notify E config [] w
  = dispatch E config (absence_message (now_strftime E (trace w)))
      (log_event EvNow w).
Proof. reflexivity. Qed.

(** X12.  The formatter always returns a message that is not empty, after
    one clock reading per product, and one for the empty list; the test of
    line 351 never keeps a message from being dispatched. *)
Theorem notification_message_not_empty (E : Env) (products : list Product)
    (w : World) :
  ∃ message,
    format_notification E products w
      = (Ok message,
         Nat.iter (Nat.max 1 (length products)) (log_event EvNow) w)
    ∧ truthy message = true.
Proof.
  unfold format_notification. destruct products as [|p rest].
  - by eexists.
  - rewrite bool_decide_eq_false_2 by done. unfold bind.
    rewrite append_products_lines. eexists. split; [reflexivity|].
    destruct (concat _) as [|line lines]; reflexivity.
Qed.

(** ** Further properties of the channels *)

(** X13.  With the chat bot switched on and both the token and the chat
    set, [send_telegram_message] makes exactly one request: a post to the
    bot URL built from the token, carrying the chat, the message as it is,
    the Markdown mode and the preview left on.  It returns true exactly when
    the answer has status 200; any other status, or an exception of the
    request, gives false. *)
Theorem telegram_posts_once (E : Env) (config : Config)
    (message token chat : string) (w : World) :
  telegram config = Some (mkTelegram (Some true) (Some token) (Some chat)) →
  token ≠ EmptyString →
  chat ≠ EmptyString →
  let url := "https://api.telegram.org/bot" +:+ token +:+ "/sendMessage" in
  let payload := TelegramPayload chat message "Markdown" false in
  send_telegram_message E config message w
  = (Ok match requests_post E (trace w) url payload with
        | Ok status => status =? 200
        | Raise _ => false
        end,
     log_event (EvPost url payload) w).
Proof.
  intros Htg Htoken Hchat. unfold send_telegram_message, try_except.
  rewrite Htg. cbn -[String.append].
  destruct token as [|c1 t1]; [done|]. destruct chat as [|c2 t2]; [done|].
  cbn -[String.append]. unfold bind, requests_post_json, ask.
  destruct (requests_post E (trace w) _ _) as [status|e]; [|done].
  by destruct (status =? 200).
Qed.

Lemma telegram_posts_once_witness :
  telegram Cases.all_channels
    = Some (mkTelegram (Some true) (Some "token") (Some "42"))
  ∧ "token" ≠ EmptyString ∧ "42" ≠ EmptyString
  ∧ send_telegram_message (Cases.shop Cases.detail 204) Cases.all_channels
      "AF1" Sim.fresh
    = (Ok false,
       log_event (EvPost "https://api.telegram.org/bottoken/sendMessage"
                    (TelegramPayload "42" "AF1" "Markdown" false)) Sim.fresh).
Proof.
  split; [reflexivity|]. split; [done|]. split; [done|].
  apply (telegram_posts_once (Cases.shop Cases.detail 204) Cases.all_channels
           "AF1" "token" "42" Sim.fresh); [reflexivity | done | done].
Defined.

(** X14.  With the webhook switched on and its URL set,
    [send_discord_message] makes exactly one request: a post to that URL
    with the message as it is.  It returns true exactly when the answer has
    status 200 or 204. *)
Theorem discord_posts_once (E : Env) (config : Config)
    (message webhook_url : string) (w : World) :
  discord_webhook config = Some (mkDiscord (Some true) (Some webhook_url)) →
  webhook_url ≠ EmptyString →
  let payload := DiscordPayload message in
  send_discord_message E config message w
  = (Ok match requests_post E (trace w) webhook_url payload with
        | Ok status => (status =? 200) || (status =? 204)
        | Raise _ => false
        end,
     log_event (EvPost webhook_url payload) w).
Proof.
  intros Hdc Hurl. unfold send_discord_message, try_except.
  rewrite Hdc. cbn -[String.append].
  destruct webhook_url as [|c1 t1]; [done|].
  cbn -[String.append]. unfold bind, requests_post_json, ask.
  destruct (requests_post E (trace w) _ _) as [status|e]; [|done].
  by destruct ((status =? 200) || (status =? 204)).
Qed.

Lemma discord_posts_once_witness :
  discord_webhook Cases.all_channels
    = Some (mkDiscord (Some true) (Some "https://discord.example/hook"))
  ∧ "https://discord.example/hook" ≠ EmptyString
  ∧ send_discord_message (Cases.shop Cases.detail 204) Cases.all_channels
      "AF1" Sim.fresh
    = (Ok true,
       log_event (EvPost "https://discord.example/hook" (DiscordPayload "AF1"))
         Sim.fresh).
Proof.
  split; [reflexivity|]. split; [done|].
  apply (discord_posts_once (Cases.shop Cases.detail 204) Cases.all_channels
           "AF1" "https://discord.example/hook" Sim.fresh);
    [reflexivity | done].
Defined.

(** Steps of the proofs on the mail session: the answers of the relay that
    are known, with their traces written as one list, and the goals on the
    call at a given position of the session. *)
Ltac mail_answers :=
  repeat match goal with
         | H : smtp_call _ _ _ = _ |- _ =>
             progress (rewrite <- ?(assoc_L (++)) in H; cbn [app] in H)
         end.

Ltac mail_call := cbn; rewrite ?app_nil_r; first [done | congruence].

Ltac mail_refute H := cbn in H; rewrite ?app_nil_r in H; congruence.

(** X15.  With the mail channel switched on and all its settings present,
    a text that [MIMEText] refuses ends the method before any call on the
    mail relay.  Otherwise the calls on the relay are a beginning of the
    session: connect, STARTTLS, login, sendmail, quit, in that order, the
    mail being written out between login and sendmail; when writing it out
    raises, the session ends with the login.  A call is made only after
    every call before it has returned, the session stops early only at a
    call that raised, and the method returns true exactly when the mail was
    written out and all five calls returned. *)
Theorem mail_session_in_order (E : Env) (config : Config)
    (subject message sender recipient server password : string) (port : Z)
    (w : World) :
  email_notifications config
    = Some (mkEmail (Some true) (Some sender) (Some recipient) (Some server)
              (Some port) (Some password)) →
  let written :=
    as_string E
      (trace w ++ [EvSmtp (SMTP server port); EvSmtp Starttls;
                   EvSmtp (Login sender password)])
      (mkMessage sender recipient subject message) in
  let session :=
    mail_session server port sender password recipient written in
  let answer (i : nat) (call : SmtpCall) :=
    smtp_call E (trace w ++ (EvSmtp <$> take i session)) call in
  (∀ e, MIMEText E message = Raise e →
        send_email_notification E config subject message w = (Ok false, w))
  ∧ (MIMEText E message = Ok () →
     ∃ sent w' n,
       send_email_notification E config subject message w = (Ok sent, w')
       ∧ (1 ≤ n ≤ length session)%nat
       ∧ trace w' = trace w ++ (EvSmtp <$> take n session)
       ∧ (∀ i call, (S i < n)%nat → session !! i = Some call →
                    answer i call = Ok ())
       ∧ ((n < length session)%nat →
          ∃ call e, session !! Nat.pred n = Some call
                    ∧ answer (Nat.pred n) call = Raise e)
       ∧ (sent = true ↔
          (∃ text, written = Ok text)
          ∧ ∀ i call, session !! i = Some call → answer i call = Ok ())).
Proof.
  intros Hmail written session answer. split.
  { intros e Htext.
    unfold send_email_notification, try_except, bind, subscript, lift.
    rewrite Hmail. cbn. by rewrite Htext. }
  intros Htext. subst answer session written.
  unfold send_email_notification, try_except, bind, subscript, smtp, ask,
    lift, peek.
  rewrite Hmail. cbn. rewrite Htext. rewrite <- !(assoc_L (++)). cbn [app].
  destruct (smtp_call E (trace w) (SMTP server port)) as [[]|e0] eqn:H0.
  2: { exists false, (log_event (EvSmtp (SMTP server port)) w), 1%nat.
       split; [done|]. split; [destruct (as_string E _ _); cbn; lia|].
       split; [by destruct (as_string E _ _)|]. split; [intros i call Hi; lia|].
       split.
       - intros _. exists (SMTP server port), e0.
         destruct (as_string E _ _); split; try done; mail_call.
       - split; [done|]. intros [[text Hw] Hall]. rewrite Hw in Hall.
         specialize (Hall 0%nat _ eq_refl). mail_refute Hall. }
  cbn [trace log_event].
  destruct (smtp_call E _ Starttls) as [[]|e1] eqn:H1.
  2: { mail_answers. eexists false, _, 2%nat.
       split; [done|]. split; [destruct (as_string E _ _); cbn; lia|].
       split; [destruct (as_string E _ _); cbn; by rewrite <- !(assoc_L (++))|].
       split.
       - intros [|i] call Hi Hcall; [|lia].
         destruct (as_string E _ _); injection Hcall as <-; mail_call.
       - split.
         + intros _. exists Starttls, e1.
           destruct (as_string E _ _); split; try done; mail_call.
         + split; [done|]. intros [[text Hw] Hall]. rewrite Hw in Hall.
           specialize (Hall 1%nat _ eq_refl). mail_refute Hall. }
  destruct (smtp_call E _ (Login sender password)) as [[]|e2] eqn:H2.
  2: { mail_answers. eexists false, _, 3%nat.
       split; [done|]. split; [destruct (as_string E _ _); cbn; lia|].
       split; [destruct (as_string E _ _); cbn; by rewrite <- !(assoc_L (++))|].
       split.
       - intros [|[|i]] call Hi Hcall; [| |lia];
           destruct (as_string E _ _); injection Hcall as <-; mail_call.
       - split.
         + intros _. exists (Login sender password), e2.
           destruct (as_string E _ _); split; try done; mail_call.
         + split; [done|]. intros [[text Hw] Hall]. rewrite Hw in Hall.
           specialize (Hall 2%nat _ eq_refl). mail_refute Hall. }
  destruct (as_string E _ _) as [text|ew] eqn:Hw; cbn [mail_session smtp_session].
  2: { mail_answers. eexists false, _, 3%nat.
       split; [done|]. split; [cbn; lia|].
       split; [cbn; by rewrite <- !(assoc_L (++))|]. split.
       - intros [|[|i]] call Hi Hcall; [| |lia];
           injection Hcall as <-; mail_call.
       - split; [cbn; lia|]. split; [done|]. by intros [[text [=]] _]. }
  destruct (smtp_call E _ (Sendmail sender recipient text)) as [[]|e3] eqn:H3.
  2: { mail_answers. eexists false, _, 4%nat.
       split; [done|]. split; [cbn; lia|].
       split; [cbn; by rewrite <- !(assoc_L (++))|]. split.
       - intros [|[|[|i]]] call Hi Hcall; [| | |lia];
           injection Hcall as <-; mail_call.
       - split.
         + intros _. exists (Sendmail sender recipient text), e3.
           split; [done | mail_call].
         + split; [done|]. intros [_ Hall].
           specialize (Hall 3%nat _ eq_refl). mail_refute Hall. }
  destruct (smtp_call E _ Quit) as [[]|e4] eqn:H4; mail_answers.
  - eexists true, _, 5%nat.
    split; [done|]. split; [cbn; lia|].
    split; [cbn; by rewrite <- !(assoc_L (++))|].
    assert (∀ i call,
              smtp_session server port sender password recipient text !! i
              = Some call →
              smtp_call E
                (trace w ++
                 (EvSmtp <$>
                  take i (smtp_session server port sender password recipient
                            text))) call = Ok ()) as Hall.
    { intros [|[|[|[|[|i]]]]] call Hcall; try injection Hcall as <-;
        mail_call. }
    split; [intros i call _; apply Hall|]. split; [cbn; lia|].
    split; [intros _; split; [by eexists | exact Hall] | done].
  - eexists false, _, 5%nat.
    split; [done|]. split; [cbn; lia|].
    split; [cbn; by rewrite <- !(assoc_L (++))|]. split.
    + intros [|[|[|[|i]]]] call Hi Hcall; [| | | |lia];
        injection Hcall as <-; mail_call.
    + split; [cbn; lia|]. split; [done|]. intros [_ Hall].
      specialize (Hall 4%nat _ eq_refl). mail_refute Hall.
Qed.

Lemma mail_session_in_order_witness :
  email_notifications Cases.all_channels
    = Some (mkEmail (Some true) (Some "bot@example.org")
              (Some "me@example.org") (Some "smtp.example.org") (Some 587)
              (Some "secret"))
  ∧ MIMEText (Cases.shop Cases.detail 200) "AF1" = Ok ()
  ∧ ∃ sent w',
      send_email_notification (Cases.shop Cases.detail 200)
        Cases.all_channels "subject" "AF1" Sim.fresh = (Ok sent, w').
Proof.
  split; [reflexivity|]. split; [reflexivity|].
  destruct (mail_session_in_order (Cases.shop Cases.detail 200)
              Cases.all_channels "subject" "AF1" "bot@example.org"
              "me@example.org" "smtp.example.org" "secret" 587 Sim.fresh)
    as [_ Hsession]; [reflexivity|].
  destruct Hsession as (sent & w' & n & Hrun & _); [reflexivity|].
  by exists sent, w'.
Defined.

(** A sender that holds a line feed: the relay accepts every call, the mail
    cannot be written out, and the method returns false after the login. *)
Example mail_header_line_break :
  send_email_notification (Cases.shop Cases.detail 200) Samples.folded_sender
    "subject" "AF1" Sim.fresh
  = (Ok false,
     mkWorld NoFile WriteOk 0
       [EvSmtp (SMTP "smtp.example.org" 587); EvSmtp Starttls;
        EvSmtp (Login ("bot@example.org" +:+ nl +:+ "Bcc: all@example.org")
                  "secret")]).
Proof. vm_compute. reflexivity. Qed.

(** X16.  The dispatch never touches the state file, and all it asks of the
    outside are posts and calls on the mail relay: it fetches no page and
    reads no clock. *)
Theorem dispatch_only_sends (E : Env) (config : Config)
    (notification_message : string) (w : World) :
  let w' := (dispatch E config notification_message w).2 in
  file_kept w w'
  ∧ ∃ evs, trace w' = trace w ++ evs
           ∧ Forall (λ ev, (∃ url body, ev = EvPost url body)
                           ∨ (∃ call, ev = EvSmtp call)) evs.
Proof.
  split; [apply dispatch_keeps_file | apply dispatch_sends].
Qed.

(** ** Further properties of the loop *)

Section LoopMore.

Variable E : Env.
Variable config : Config.

Lemma sleeps_app (tr1 tr2 : list Event) :
  sleeps (tr1 ++ tr2) = sleeps tr1 ++ sleeps tr2.
Proof.
  induction tr1 as [|ev tr1 IH]; [done|].
  destruct ev; cbn; by rewrite ?IH.
Qed.

Lemma sleeps_none (evs : list Event) : Forall not_sleep evs → sleeps evs = [].
Proof.
  induction 1 as [|ev evs Hev _ IH]; [done|].
  destruct ev; cbn; try done. by destruct (Hev seconds).
Qed.

Lemma appended_no_sleep (w w' : World) :
  appended not_sleep w w' → sleeps (trace w') = sleeps (trace w).
Proof.
  intros (evs & -> & Hevs).
  by rewrite sleeps_app, (sleeps_none evs Hevs), app_nil_r.
Qed.

(** Neither the availability check nor the notification step pauses. *)
Lemma check_nike_availability_no_sleep (w : World) :
  appended not_sleep w (check_nike_availability E config w).2.
Proof.
  eapply appended_mono; [|apply check_nike_availability_gets].
  by intros ev (url & ua & -> & _) seconds.
Qed.

Lemma notify_no_sleep (products : list Product) :
  ∀ w, appended not_sleep w (notify E config products w).2.
Proof.
  unfold notify.
  apply frame_bind; [apply _ | | intros changed].
  { intros w. exists []. rewrite app_nil_r. by rewrite should_notify_trace. }
  destruct changed; [|apply frame_ret; apply _].
  apply frame_bind; [apply _ | | intros m].
  { intros w. eapply appended_mono; [|apply format_notification_reads_clock].
    by intros ev -> seconds. }
  destruct (truthy m); [|apply frame_ret; apply _].
  intros w. eapply appended_mono; [|apply dispatch_sends].
  by intros ev [(url & body & ->) | (call & ->)] seconds.
Qed.

Lemma check_nike_availability_returns (w : World) :
  ∃ products w', check_nike_availability E config w = (Ok products, w').
Proof. apply try_except_returns. Qed.

(** The work of one turn, before the loop decides to stop or to pause. *)
Lemma turn_work (w : World) :
  ∃ r w1,
    (let! products := check_nike_availability E config in
     notify E config products) w = (r, w1)
    ∧ sleeps (trace w1) = sleeps (trace w).
Proof.
  unfold bind.
  destruct (check_nike_availability_returns w) as (products & w0 & Hcheck).
  pose proof (check_nike_availability_no_sleep w) as Hs0.
  rewrite Hcheck in Hs0 |- *. cbn [snd] in Hs0.
  pose proof (notify_no_sleep products w0) as Hs1.
  destruct (notify E config products w0) as [r w1]. cbn [snd] in Hs1.
  exists r, w1. split; [done|].
  by rewrite (appended_no_sleep _ _ Hs1), (appended_no_sleep _ _ Hs0).
Qed.

(** One turn in terms of its work. *)
Lemma run_iteration_turn (w w1 : World) (r : result ()) :
  (let! products := check_nike_availability E config in
   notify E config products) w = (r, w1) →
  run_iteration E config w =
  let once := default false (single_run config) in
  let interval := default 30 (check_interval config) in
  let pause (seconds : Z) : result LoopControl * World :=
    if seconds <? 0 then (Raise ValueError, w1)
    else if sleep_max <? seconds then (Raise OverflowError, w1)
    else (Ok Again, log_event (EvSleep seconds) w1) in
  match r with
  | Ok _ =>
      if once then (Ok Break, w1)
      else if (interval <? 0) || (sleep_max <? interval)
           then pause (Z.min interval 300)
           else pause interval
  | Raise _ => if once then (Ok Break, w1) else pause (Z.min interval 300)
  end.
Proof.
  unfold run_iteration, try_except, bind at 1 3. unfold bind at 1.
  intros Hwork. unfold bind in Hwork.
  assert (∀ seconds,
            (let! _ := time_sleep seconds in ret Again) w1
            = if seconds <? 0 then (Raise ValueError, w1)
              else if sleep_max <? seconds then (Raise OverflowError, w1)
              else (Ok Again, log_event (EvSleep seconds) w1)) as Hpause.
  { intros seconds. unfold bind, time_sleep.
    destruct (seconds <? 0); [done|]. by destruct (sleep_max <? seconds). }
  destruct (check_nike_availability E config w) as [[products|e] w0].
  - rewrite Hwork. destruct r as [[]|e].
    + destruct (default false (single_run config)); [done|].
      rewrite Hpause.
      destruct (default 30 (check_interval config) <? 0); cbn [orb];
        [by rewrite Hpause|].
      destruct (sleep_max <? default 30 (check_interval config));
        [by rewrite Hpause | done].
    + destruct (default false (single_run config)); [done|].
      by rewrite Hpause.
  - injection Hwork as <- <-.
    destruct (default false (single_run config)); [done|].
    by rewrite Hpause.
Qed.

End LoopMore.

(** X17.  In single-run mode the loop makes one turn and stops without a
    pause, whether the turn went through or raised. *)
Theorem single_run_one_turn (E : Env) (config : Config) (turns : nat)
    (w : World) :
  single_run config = Some true →
  ∃ w', run E config (S turns) w = (Ok (), w')
        ∧ run_iteration E config w = (Ok Break, w')
        ∧ sleeps (trace w') = sleeps (trace w).
Proof.
  intros Honce. destruct (turn_work E config w) as (r & w1 & Hwork & Hsleeps).
  pose proof (run_iteration_turn E config w w1 r Hwork) as Hturn.
  rewrite Honce in Hturn. cbn [default] in Hturn.
  assert (run_iteration E config w = (Ok Break, w1)) as Hbreak
    by (rewrite Hturn; by destruct r).
  exists w1. split; [|done]. cbn [run]. unfold bind. by rewrite Hbreak.
Qed.

Lemma single_run_one_turn_witness :
  single_run Cases.scenario_d = Some true
  ∧ ∃ w', run (Cases.shop Cases.detail 500) Cases.scenario_d 3 Sim.fresh
            = (Ok (), w')
          ∧ sleeps (trace w') = [].
Proof.
  split; [reflexivity|].
  destruct (single_run_one_turn (Cases.shop Cases.detail 500)
              Cases.scenario_d 2 Sim.fresh)
    as (w' & Hrun & _ & Hsleeps); [reflexivity|].
  by exists w'.
Defined.

(** X18.  Without single-run mode and with an interval that is not
    negative, the loop never raises: whatever happens in a turn, the turn
    ends with exactly one pause, of the interval, or of the lesser of the
    interval and 300 seconds after an error. *)
Theorem continuous_run_pauses (E : Env) (config : Config) (turns : nat)
    (w : World) :
  default false (single_run config) = false →
  0 ≤ default 30 (check_interval config) →
  ∃ w' pauses,
    run E config turns w = (Ok (), w')
    ∧ sleeps (trace w') = sleeps (trace w) ++ pauses
    ∧ length pauses = turns
    ∧ Forall (λ seconds,
                seconds = default 30 (check_interval config)
                ∨ seconds = Z.min (default 30 (check_interval config)) 300)
        pauses.
Proof.
  intros Honce Hinterval. revert w.
  induction turns as [|turns IH]; intros w.
  - exists w, []. by rewrite app_nil_r.
  - destruct (turn_work E config w) as (r & w1 & Hwork & Hsleeps).
    pose proof (run_iteration_turn E config w w1 r Hwork) as Hturn.
    rewrite Honce in Hturn. cbv zeta in Hturn.
    assert ((default 30 (check_interval config) <? 0) = false) as Hpos
      by (apply Z.ltb_ge; lia).
    assert ((Z.min (default 30 (check_interval config)) 300 <? 0) = false)
      as Hmin by (apply Z.ltb_ge; lia).
    assert ((sleep_max <? Z.min (default 30 (check_interval config)) 300)
            = false) as Hcap by (apply Z.ltb_ge; unfold sleep_max; lia).
    rewrite ?Hpos, ?Hmin, ?Hcap in Hturn. cbn [orb] in Hturn.
    assert (∃ seconds,
              run_iteration E config w
              = (Ok Again, log_event (EvSleep seconds) w1)
              ∧ (seconds = default 30 (check_interval config)
                 ∨ seconds = Z.min (default 30 (check_interval config)) 300))
      as (seconds & Hagain & Hseconds).
    { destruct r; [|eexists; (split; [exact Hturn|]); auto].
      destruct (sleep_max <? default 30 (check_interval config));
        rewrite ?Hmin, ?Hcap in Hturn;
        eexists; (split; [exact Hturn|]); auto. }
    destruct (IH (log_event (EvSleep seconds) w1))
      as (w' & pauses & Hrun & Hpauses & Hlen & Hall).
    exists w', (seconds :: pauses). cbn [run]. unfold bind.
    rewrite Hagain, Hrun. split; [done|].
    rewrite Hpauses. cbn [trace log_event]. rewrite sleeps_app, Hsleeps.
    cbn [sleeps]. rewrite <- (assoc_L (++)). split; [done|].
    split; [cbn; by rewrite Hlen|]. by constructor.
Qed.

Lemma continuous_run_pauses_witness :
  default false (single_run (Samples.continuous 30)) = false
  ∧ 0 ≤ default 30 (check_interval (Samples.continuous 30))
  ∧ ∃ w', run (Cases.shop Cases.detail 200) (Samples.continuous 30) 2
            Sim.fresh = (Ok (), w').
Proof.
  split; [reflexivity|]. split; [done|].
  destruct (continuous_run_pauses (Cases.shop Cases.detail 200)
              (Samples.continuous 30) 2 Sim.fresh)
    as (w' & pauses & Hrun & _); [reflexivity | done |].
  by exists w'.
Defined.

(** X19.  Without single-run mode a negative interval ends the loop in its
    first turn: the pause raises, the handler pauses in turn and raises
    again, and that error leaves [run]. *)
Theorem negative_interval_ends_run (E : Env) (config : Config) (turns : nat)
    (w : World) :
  default false (single_run config) = false →
  default 30 (check_interval config) < 0 →
  ∃ w', run E config (S turns) w = (Raise ValueError, w')
        ∧ sleeps (trace w') = sleeps (trace w).
Proof.
  intros Honce Hinterval.
  destruct (turn_work E config w) as (r & w1 & Hwork & Hsleeps).
  pose proof (run_iteration_turn E config w w1 r Hwork) as Hturn.
  rewrite Honce in Hturn. cbv zeta in Hturn.
  assert ((default 30 (check_interval config) <? 0) = true) as Hneg
    by (apply Z.ltb_lt; lia).
  assert ((Z.min (default 30 (check_interval config)) 300 <? 0) = true)
    as Hmin by (apply Z.ltb_lt; lia).
  rewrite ?Hneg, ?Hmin in Hturn.
  assert (run_iteration E config w = (Raise ValueError, w1)) as Hraise
    by (rewrite Hturn; by destruct r).
  exists w1. split; [|done]. cbn [run]. unfold bind. by rewrite Hraise.
Qed.

Lemma negative_interval_ends_run_witness :
  default false (single_run (Samples.continuous (-1))) = false
  ∧ default 30 (check_interval (Samples.continuous (-1))) < 0
  ∧ ∃ w', run (Cases.shop Cases.detail 200) (Samples.continuous (-1)) 3
            Sim.fresh = (Raise ValueError, w').
Proof.
  split; [reflexivity|]. split; [done|].
  destruct (negative_interval_ends_run (Cases.shop Cases.detail 200)
              (Samples.continuous (-1)) 2 Sim.fresh)
    as (w' & Hrun & _); [reflexivity | done |].
  by exists w'.
Defined.

(** X20.  When the notification step raises in a turn, here because the
    state file cannot be read, nothing is sent and the loop pauses for the
    lesser of the interval and 300 seconds before its next turn. *)
Theorem error_pause_is_capped (E : Env) (config : Config)
    (products : list Product) (w w1 : World) :
  check_nike_availability E config w = (Ok products, w1) →
  products ≠ [] →
  state_file w = Unreadable →
  default false (single_run config) = false →
  0 ≤ default 30 (check_interval config) →
  run_iteration E config w
  = (Ok Again,
     log_event (EvSleep (Z.min (default 30 (check_interval config)) 300)) w1).
Proof.
  intros Hcheck Hne Hfile Honce Hinterval.
  assert (state_file w1 = Unreadable) as Hfile1.
  { pose proof (check_nike_availability_keeps_file E config w) as (Hkept & _).
    rewrite Hcheck in Hkept. cbn [snd] in Hkept. congruence. }
  assert ((let! ps := check_nike_availability E config in
           notify E config ps) w = (Raise OSError, w1)) as Hwork.
  { unfold bind at 1. rewrite Hcheck. unfold notify, bind.
    rewrite should_notify_nonempty by done. by rewrite Hfile1. }
  rewrite (run_iteration_turn E config w w1 _ Hwork). cbv beta zeta.
  rewrite Honce.
  assert ((Z.min (default 30 (check_interval config)) 300 <? 0) = false)
    as -> by (apply Z.ltb_ge; lia).
  assert ((sleep_max <? Z.min (default 30 (check_interval config)) 300)
          = false) as -> by (apply Z.ltb_ge; unfold sleep_max; lia).
  done.
Qed.

Lemma error_pause_is_capped_witness :
  check_nike_availability (Cases.shop Cases.detail 200)
    (Samples.continuous 3600) Samples.locked
  = (Ok [Cases.paris],
     (check_nike_availability (Cases.shop Cases.detail 200)
        (Samples.continuous 3600) Samples.locked).2)
  ∧ sleeps (trace (run_iteration (Cases.shop Cases.detail 200)
                     (Samples.continuous 3600) Samples.locked).2) = [300].
Proof.
  split; [vm_compute; reflexivity|].
  rewrite (error_pause_is_capped (Cases.shop Cases.detail 200)
             (Samples.continuous 3600) [Cases.paris] Samples.locked
             (check_nike_availability (Cases.shop Cases.detail 200)
                (Samples.continuous 3600) Samples.locked).2);
    [vm_compute; reflexivity | vm_compute; reflexivity | done | reflexivity
    | reflexivity | done].
Defined.

(** ** The configuration *)

(** X21.  Without a configuration file the built-in configuration is used,
    and it has one channel, the chat bot, fed from two environment
    variables.  When one of them is unset or empty, nothing is ever sent:
    the dispatch returns in the world it was given. *)
Theorem built_in_configuration_needs_environment (E : Env)
    (getenv : string → option string) (config : Config) (message : string)
    (w : World) :
  load_config ConfigAbsent getenv = Ok config →
  truthy_opt (getenv "TELEGRAM_BOT_TOKEN") = false
  ∨ truthy_opt (getenv "TELEGRAM_CHAT_ID") = false →
  dispatch E config message w = (Ok (), w).
Proof.
  intros [= <-] Hunset. rewrite dispatch_sequence.
  rewrite send_telegram_message_skipped by (right; exact Hunset).
  cbn [snd].
  rewrite send_email_notification_skipped by (by left). cbn [snd].
  by rewrite send_discord_message_skipped by (by left).
Qed.

Lemma built_in_configuration_needs_environment_witness :
  load_config ConfigAbsent Samples.no_environment
    = Ok (Sim.default_config None None)
  ∧ dispatch (Cases.shop Cases.detail 200) (Sim.default_config None None)
      "AF1" Sim.fresh = (Ok (), Sim.fresh).
Proof.
  split; [reflexivity|].
  apply (built_in_configuration_needs_environment
           (Cases.shop Cases.detail 200) Samples.no_environment);
    [reflexivity | by left].
Defined.

(** X22.  A configuration file is taken as it is: what it leaves out is not
    filled in from the built-in configuration.  With a file that lacks the
    user agent or the URL of the listing page, every availability check
    returns the empty list without a request. *)
Theorem configuration_file_not_completed (E : Env)
    (getenv : string → option string) (loaded config : Config) (w : World) :
  load_config (ConfigJson loaded) getenv = Ok config →
  user_agent loaded = None ∨ nike_search_url loaded = None →
  config = loaded
  ∧ check_nike_availability E config w = (Ok [], w).
Proof.
  intros [= <-] Hmissing. split; [done|].
  unfold check_nike_availability, try_except, bind, subscript.
  destruct Hmissing as [-> | ->]; [done|]. by destruct (user_agent loaded).
Qed.

Lemma configuration_file_not_completed_witness :
  load_config (ConfigJson (mkConfig (Some []) None None None None None None None))
    Samples.environment
    = Ok (mkConfig (Some []) None None None None None None None)
  ∧ (user_agent (mkConfig (Some []) None None None None None None None) = None
     ∨ nike_search_url (mkConfig (Some []) None None None None None None None)
       = None)
  ∧ check_nike_availability (Cases.shop Cases.detail 200)
      (mkConfig (Some []) None None None None None None None) Sim.fresh
    = (Ok [], Sim.fresh).
Proof.
  split; [reflexivity|]. split; [by left|].
  apply (configuration_file_not_completed (Cases.shop Cases.detail 200)
           Samples.environment
           (mkConfig (Some []) None None None None None None None));
    [reflexivity | by left].
Defined.

(** ** Identifiers and search terms *)

Lemma split_char_snoc (c : ascii) (s : string) :
  split_char c (s +:+ String c EmptyString) = split_char c s ++ [EmptyString].
Proof.
  induction s as [|a s IH].
  - change (EmptyString +:+ String c EmptyString) with (String c EmptyString).
    cbn [split_char app]. by rewrite Ascii.eqb_refl.
  - change (String a s +:+ String c EmptyString)
      with (String a (s +:+ String c EmptyString)).
    cbn [split_char]. rewrite IH.
    destruct (Ascii.eqb a c); [done|].
    pose proof (split_char_nonempty c s) as Hne.
    by destruct (split_char c s).
Qed.

(** X23.  The identifier of a product without link is its name.  With a
    link it is what follows the last slash of the link, or the link itself
    when it has no slash; it holds no slash, and it is the empty string for
    a link that ends in a slash. *)
Theorem product_identifier_last_segment (p : Product) :
  (p_link p = EmptyString → product_id p = p_name p)
  ∧ (p_link p ≠ EmptyString →
     str_in "/" (product_id p) = false
     ∧ (p_link p = product_id p
        ∨ ∃ pre, p_link p = pre +:+ "/" +:+ product_id p))
  ∧ (∀ pre, p_link p = pre +:+ "/" → product_id p = EmptyString).
Proof.
  destruct (product_id_spec p) as [Hname Hlink].
  split; [done|]. split; [done|].
  intros pre Hpre. unfold product_id. rewrite Hpre.
  assert (truthy (pre +:+ "/") = true) as -> by (by destruct pre).
  unfold last_item. by rewrite split_char_snoc, last_last.
Qed.

Lemma product_identifier_last_segment_witness :
  p_link Cases.paris ≠ EmptyString
  ∧ product_id Cases.paris = "air-force-1-low-paris-FZ1234"
  ∧ str_in "/" (product_id Cases.paris) = false.
Proof.
  split; [done|]. split; [reflexivity|].
  apply (product_identifier_last_segment Cases.paris). done.
Defined.

(** X24.  The search terms are a conjunction: a name that matches a list of
    terms matches every list made of terms of that list, so neither the
    order of the terms nor a repeated term changes the answer. *)
Theorem fewer_terms_match_more (E : Env) (config config' : Config)
    (product_name : option string) :
  default [] (search_terms config') ⊆ default [] (search_terms config) →
  matches_search_terms E config product_name = true →
  matches_search_terms E config' product_name = true.
Proof.
  intros Hsub. unfold matches_search_terms.
  destruct product_name as [name|]; [|done].
  destruct (truthy name); [|done]. cbn [negb].
  rewrite !all_terms_present_spec, !Forall_forall.
  intros Hall term Hterm. apply Hall, Hsub, Hterm.
Qed.

Lemma fewer_terms_match_more_witness :
  default [] (search_terms (Sim.config_with_terms ["Patent"; "City Pack Paris"; "Patent"]))
    ⊆ default [] (search_terms Cases.config)
  ∧ matches_search_terms Sim.offline Cases.config
      (Some (p_name Cases.paris)) = true
  ∧ matches_search_terms Sim.offline
      (Sim.config_with_terms ["Patent"; "City Pack Paris"; "Patent"])
      (Some (p_name Cases.paris)) = true.
Proof.
  assert (default []
            (search_terms
               (Sim.config_with_terms ["Patent"; "City Pack Paris"; "Patent"]))
          ⊆ default [] (search_terms Cases.config)) as Hsub.
  { intros term Hterm. cbn in Hterm |- *.
    rewrite !elem_of_cons in Hterm. rewrite !elem_of_cons.
    destruct Hterm as [->|[->|[->|Hnil]]];
      [auto | auto | auto | by apply elem_of_nil in Hnil]. }
  split; [exact Hsub|]. split; [reflexivity|].
  apply (fewer_terms_match_more Sim.offline Cases.config
           (Sim.config_with_terms ["Patent"; "City Pack Paris"; "Patent"])
           (Some (p_name Cases.paris)) Hsub).
  reflexivity.
Defined.

Section ProductOrder.

Lemma find_by_id_unique (l : list Product) (k : string) (x : Product) :
  NoDup (product_id <$> l) → x ∈ l → product_id x = k →
  List.find (λ p, bool_decide (product_id p = k)) l = Some x.
Proof.
  intros Hnodup Hin Hid. induction l as [|y l IH]; [by apply elem_of_nil in Hin|].
  cbn [fmap list_fmap] in Hnodup. apply NoDup_cons in Hnodup as [Hy Hl].
  cbn [List.find]. case_bool_decide as Hyk.
  - apply elem_of_cons in Hin as [->|Hin]; [done|]. exfalso. apply Hy.
    apply list_elem_of_fmap. exists x. split; [congruence | done].
  - apply elem_of_cons in Hin as [->|Hin]; [done|]. by apply IH.
Qed.

Lemma find_by_id_permutation (l1 l2 : list Product) (k : string) :
  l1 ≡ₚ l2 → NoDup (product_id <$> l1) →
  List.find (λ p, bool_decide (product_id p = k)) l1
  = List.find (λ p, bool_decide (product_id p = k)) l2.
Proof.
  intros Hperm Hnodup.
  assert (NoDup (product_id <$> l2)) as Hnodup2 by (by rewrite <- Hperm).
  destruct (List.find _ l1) as [x|] eqn:H1.
  - apply find_some in H1 as [Hin Hid]. apply bool_decide_eq_true in Hid.
    symmetry. apply find_by_id_unique; [done | | done].
    rewrite <- Hperm. by apply list_elem_of_In.
  - destruct (List.find _ l2) as [y|] eqn:H2; [|done].
    apply find_some in H2 as [Hin Hid].
    assert (In y l1) as Hin1.
    { apply list_elem_of_In. rewrite Hperm. by apply list_elem_of_In. }
    apply (find_none _ _ H1) in Hin1. congruence.
Qed.

End ProductOrder.

(** X25.  When the products found have identifiers that differ from one
    another, the order in which the page lists them does not matter: two
    lists with the same products get the same answer from [should_notify],
    with the same effect on the state file. *)
Theorem product_order_ignored (ps qs : list Product) (w : World) :
  ps ≡ₚ qs →
  NoDup (product_id <$> ps) →
  should_notify ps w = should_notify qs w.
Proof.
  intros Hperm Hnodup.
  assert (build_state ps ∅ = build_state qs ∅) as Hstate.
  { apply map_eq. intros k. rewrite !build_state_lookup.
    rewrite (find_by_id_permutation (reverse ps) (reverse qs) k); [done| |].
    - by rewrite !reverse_Permutation.
    - by rewrite reverse_Permutation. }
  unfold should_notify. rewrite Hstate.
  destruct ps as [|p ps], qs as [|q qs]; try done.
  - by apply Permutation_nil_cons in Hperm.
  - symmetry in Hperm. by apply Permutation_nil_cons in Hperm.
Qed.

Lemma product_order_ignored_witness :
  [Cases.paris; Samples.dunk] ≡ₚ [Samples.dunk; Cases.paris]
  ∧ NoDup (product_id <$> [Cases.paris; Samples.dunk])
  ∧ should_notify [Cases.paris; Samples.dunk] Sim.fresh
    = should_notify [Samples.dunk; Cases.paris] Sim.fresh.
Proof.
  assert (NoDup (product_id <$> [Cases.paris; Samples.dunk])) as Hnodup.
  { apply (bool_decide_unpack _). vm_compute. reflexivity. }
  split; [apply Permutation_swap|]. split; [exact Hnodup|].
  apply (product_order_ignored [Cases.paris; Samples.dunk]
           [Samples.dunk; Cases.paris] Sim.fresh);
    [apply Permutation_swap | exact Hnodup].
Defined.
